(** * Balancer v3 pool tags on Arbitrum: a model of [src/main.mts]

    The module fetches every pool of one subgraph page by page, drops
    the records it has already seen, and turns each remaining record
    into a contract tag.  This file embeds the functions of [main.mts]
    and proves the properties the specification states about them.

    Conventions of the embedding.
    - A JavaScript string is a sequence of UTF-16 code units.  A [string]
      here holds code units below 256, one per character (so ["160"%char]
      is the no-break space and not half of a UTF-8 sequence).
    - A JavaScript number is an IEEE 754 binary64 value: [spec_float] with
      a 53-bit mantissa and [emax = 1024].
    - A thrown value is a [Thrown]; a function that can throw returns
      [Thrown + A].
    - The subgraph is a [Source]: the reply to the [i]-th request, given
      its url and cursor.  The [while] loop is run with fuel.
    - Writes to the console are not modelled. *)

From Stdlib Require Import ZArith QArith Qround Qabs Ascii.
From Stdlib Require String.
From Stdlib Require Import Floats.SpecFloat.
From stdpp Require Import base tactics option list strings gmap sets.

Local Open Scope Z_scope.

(** ** Characters and strings *)

Module Js.

Definition code (c : ascii) : Z := Z.of_N (Ascii.N_of_ascii c).

Definition isDigit (c : ascii) : bool := (48 <=? code c) && (code c <=? 57).
Definition isLower (c : ascii) : bool := (97 <=? code c) && (code c <=? 122).
Definition isUpper (c : ascii) : bool := (65 <=? code c) && (code c <=? 90).

(** WhiteSpace and LineTerminator code units below 256: TAB, LF, VT, FF,
    CR, SP and NBSP. *)
Definition isWhiteSpace (c : ascii) : bool :=
  ((9 <=? code c) && (code c <=? 13)) || (code c =? 32) || (code c =? 160).

Definition chr (n : Z) : ascii := Ascii.ascii_of_N (Z.to_N n).

Fixpoint trimStart (s : string) : string :=
  match s with
  | String c r => if isWhiteSpace c then trimStart r else s
  | EmptyString => EmptyString
  end.

(** [String.prototype.trim]. *)
Definition trim (s : string) : string :=
  String.rev (trimStart (String.rev (trimStart s))).

Fixpoint allChars (p : ascii -> bool) (s : string) : bool :=
  match s with
  | String c r => p c && allChars p r
  | EmptyString => true
  end.

Fixpoint repeatChar (c : ascii) (n : nat) : string :=
  match n with
  | O => EmptyString
  | S k => String c (repeatChar c k)
  end.

(** [s.substring(0, n)] for [0 <= n]. *)
Fixpoint prefix (n : nat) (s : string) : string :=
  match n, s with
  | S k, String c r => String c (prefix k r)
  | _, _ => EmptyString
  end.

(** [s.substring(n)] for [0 <= n]. *)
Fixpoint dropChars (n : nat) (s : string) : string :=
  match n, s with
  | S k, String _ r => dropChars k r
  | _, _ => s
  end.

(** Decimal digits of a non-negative integer, most significant first. *)
Fixpoint digitsAux (fuel : nat) (n : Z) (acc : string) : string :=
  match fuel with
  | O => acc
  | S f =>
      let acc' := String (chr (48 + n mod 10)) acc in
      if n <? 10 then acc' else digitsAux f (n / 10) acc'
  end.

Definition decimal (n : Z) : string :=
  digitsAux (S (Z.to_nat (Z.log2 n))) n EmptyString.

Definition numDigits (n : Z) : Z := Z.of_nat (String.length (decimal n)).

End Js.

(** ** Numbers *)

Module Num.

Definition number : Type := spec_float.

Definition prec : Z := 53.
Definition emax : Z := 1024.

Definition NaN : number := S754_nan.
Definition Infinity : number := S754_infinity false.

(** The exact value of a finite number. *)
Definition toQ (x : number) : Q :=
  match x with
  | S754_finite s m e =>
      let z := if s then Z.neg m else Z.pos m in
      if 0 <=? e then inject_Z (z * 2 ^ e) else Qmake z (Z.to_pos (2 ^ (- e)))
  | _ => 0%Q
  end.

(** The number nearest to a rational (ties to even); [neg] is the sign
    given to a zero result. *)
Definition ofQ (neg : bool) (q : Q) : number :=
  match Qnum q with
  | Z0 => S754_zero neg
  | Z.pos p =>
      SFdiv prec emax (S754_finite false p 0) (S754_finite false (Qden q) 0)
  | Z.neg p =>
      SFdiv prec emax (S754_finite true p 0) (S754_finite false (Qden q) 0)
  end.

Definition ofZ (z : Z) : number := ofQ false (inject_Z z).

(** [m * 10^e] as a rational. *)
Definition scale10 (m e : Z) : Q :=
  if 0 <=? e then inject_Z (m * 10 ^ e) else Qmake m (Z.to_pos (10 ^ (- e))).

Definition isFinite (x : number) : bool :=
  match x with
  | S754_zero _ | S754_finite _ _ _ => true
  | _ => false
  end.

(** [x === y] on numbers. *)
Definition eqb (x y : number) : bool := SFeqb x y.
(** [x >= y] and [x < y] and [x > y]. *)
Definition geb (x y : number) : bool := SFleb y x.
Definition ltb (x y : number) : bool := SFltb x y.
Definition gtb (x y : number) : bool := SFltb y x.

Definition abs (x : number) : number := SFabs x.
Definition div (x y : number) : number := SFdiv prec emax x y.

(** [Number.isInteger]. *)
Definition isInteger (x : number) : bool :=
  match x with
  | S754_zero _ => true
  | S754_finite _ _ _ => Qeq_bool (toQ x) (inject_Z (Qfloor (toQ x)))
  | _ => false
  end.

(** [Math.round]: the nearest integer, ties towards +Infinity; the sign of
    a zero result is that of the argument. *)
Definition round (x : number) : number :=
  match x with
  | S754_finite s _ _ =>
      ofQ s (inject_Z (Qfloor (toQ x + (1 # 2))%Q))
  | _ => x
  end.

(** [x % 1]: what is left of [x] after its integer part, with the sign of
    [x]. *)
Definition mod1 (x : number) : number :=
  match x with
  | S754_finite s _ _ =>
      let q := toQ x in
      let t := if s then Qceiling q else Qfloor q in
      ofQ s (q - inject_Z t)
  | S754_zero _ => x
  | _ => NaN
  end.

(** *** Number::toString

    The digits are the shortest decimal that reads back as [x], and among
    those the one nearest to [x]. *)

(** For [q > 0], the [n] with [10^(n-1) <= q < 10^n]. *)
Definition magnitude (q : Q) : Z :=
  let n0 := Js.numDigits (Qnum q) - Js.numDigits (Z.pos (Qden q)) in
  if Qle_bool (scale10 1 n0) q then n0 + 1 else n0.

Definition readsBack (q : Q) (s e : Z) : bool :=
  Qeq_bool (toQ (ofQ false (scale10 s e))) q.

(** The [k]-digit decimal [s * 10^(n-k)] that reads back as [q], if any. *)
Definition digitsOfLength (q : Q) (n k : Z) : option (Z * Z) :=
  let lo := Qfloor (q / scale10 1 (n - k)) in
  let hi := lo + 1 in
  let below := (q - scale10 lo (n - k))%Q in
  let above := (scale10 hi (n - k) - q)%Q in
  let up := if hi =? 10 ^ k then (10 ^ (k - 1), n + 1) else (hi, n) in
  match readsBack q lo (n - k), readsBack q hi (n - k) with
  | true, true =>
      match Qcompare below above with
      | Lt => Some (lo, n)
      | Gt => Some up
      | Eq => if Z.even lo then Some (lo, n) else Some up
      end
  | true, false => Some (lo, n)
  | false, true => Some up
  | false, false => None
  end.

Fixpoint shortestFrom (fuel : nat) (q : Q) (n k : Z) : Z * Z * Z :=
  match fuel with
  | O => (Qfloor (q / scale10 1 (n - k)), n, k)
  | S f =>
      match digitsOfLength q n k with
      | Some (s, n') => (s, n', k)
      | None => shortestFrom f q n (k + 1)
      end
  end.

(** [(s, n, k)] of Number::toString for [q > 0]. *)
Definition shortest (q : Q) : Z * Z * Z := shortestFrom 17 q (magnitude q) 1.

Definition zeros (n : Z) : string := Js.repeatChar "0" (Z.to_nat n).

Definition exponentPart (e : Z) : string :=
  String "e" ((if e <? 0 then "-" else "+") +:+ Js.decimal (Z.abs e)).

Definition toStringPos (q : Q) : string :=
  let '(s, n, k) := shortest q in
  let ds := Js.decimal s in
  if (k <=? n) && (n <=? 21) then ds +:+ zeros (n - k)
  else if (0 <? n) && (n <=? 21) then
    Js.prefix (Z.to_nat n) ds +:+ "." +:+ Js.dropChars (Z.to_nat n) ds
  else if (-6 <? n) && (n <=? 0) then "0." +:+ zeros (- n) +:+ ds
  else if k =? 1 then ds +:+ exponentPart (n - 1)
  else Js.prefix 1 ds +:+ "." +:+ Js.dropChars 1 ds +:+ exponentPart (n - 1).

Definition toString (x : number) : string :=
  match x with
  | S754_nan => "NaN"
  | S754_zero _ => "0"
  | S754_infinity s => if s then "-Infinity" else "Infinity"
  | S754_finite s _ _ =>
      (if s then "-" else "") +:+ toStringPos (Qabs (toQ x))
  end.

(** *** Number.prototype.toFixed and toPrecision *)

Definition roundHalfUp (q : Q) : Z := Qfloor (q + (1 # 2))%Q.

Definition toFixed (x : number) (f : Z) : string :=
  if negb (isFinite x) then toString x
  else
    let q := Qabs (toQ x) in
    if Qle_bool (scale10 1 21) q then toString x
    else
      let n := roundHalfUp (q * scale10 1 f) in
      let m := Js.decimal n in
      let k := Z.of_nat (String.length m) in
      let m := if k <=? f then zeros (f + 1 - k) +:+ m else m in
      let k := Z.max k (f + 1) in
      let m :=
        if f =? 0 then m
        else Js.prefix (Z.to_nat (k - f)) m +:+ "." +:+
             Js.dropChars (Z.to_nat (k - f)) m in
      (if ltb x (S754_zero false) then "-" else "") +:+ m.

Definition toPrecision (x : number) (p : Z) : string :=
  if negb (isFinite x) then toString x
  else
    let sign := if ltb x (S754_zero false) then "-" else "" in
    let q := Qabs (toQ x) in
    let '(m, e) :=
      if Qeq_bool q 0 then (zeros p, 0)
      else
        let e0 := magnitude q - 1 in
        let n := roundHalfUp (q / scale10 1 (e0 - p + 1)) in
        if n =? 10 ^ p then (Js.decimal (10 ^ (p - 1)), e0 + 1)
        else (Js.decimal n, e0) in
    if (e <? -6) || (p <=? e) then
      let m := if p =? 1 then m
               else Js.prefix 1 m +:+ "." +:+ Js.dropChars 1 m in
      sign +:+ m +:+ exponentPart e
    else if e =? p - 1 then sign +:+ m
    else if 0 <=? e then
      sign +:+ Js.prefix (Z.to_nat (e + 1)) m +:+ "." +:+
      Js.dropChars (Z.to_nat (e + 1)) m
    else sign +:+ "0." +:+ zeros (- (e + 1)) +:+ m.

(** *** StringToNumber: [Number(s)] *)

Fixpoint spanChars (p : ascii -> bool) (s : string) : string * string :=
  match s with
  | String c r =>
      if p c then let '(a, b) := spanChars p r in (String c a, b)
      else (EmptyString, s)
  | EmptyString => (EmptyString, EmptyString)
  end.

Definition digitValue (c : ascii) : Z :=
  if Js.isDigit c then Js.code c - 48
  else if Js.isLower c then Js.code c - 87
  else Js.code c - 55.

Definition isRadixDigit (radix : Z) (c : ascii) : bool :=
  (Js.isDigit c || Js.isLower c || Js.isUpper c) && (digitValue c <? radix).

Fixpoint digitsValue (radix : Z) (acc : Z) (s : string) : Z :=
  match s with
  | String c r => digitsValue radix (acc * radix + digitValue c) r
  | EmptyString => acc
  end.

Definition parseRadix (radix : Z) (s : string) : number :=
  match s with
  | EmptyString => NaN
  | _ => if Js.allChars (isRadixDigit radix) s
         then ofZ (digitsValue radix 0 s) else NaN
  end.

(** An ExponentPart, or nothing, up to the end of the literal. *)
Definition parseExponent (s : string) : option Z :=
  match s with
  | EmptyString => Some 0
  | String c r =>
      if (c =? "e")%char || (c =? "E")%char then
        let '(neg, ds) :=
          match r with
          | String "-" t => (true, t)
          | String "+" t => (false, t)
          | _ => (false, r)
          end in
        match ds with
        | EmptyString => None
        | _ => if Js.allChars Js.isDigit ds
               then Some (if neg then - digitsValue 10 0 ds
                          else digitsValue 10 0 ds)
               else None
        end
      else None
  end.

(** An unsigned StrDecimalLiteral other than [Infinity], as mantissa and
    decimal exponent. *)
Definition parseDecimal (s : string) : option (Z * Z) :=
  let '(int, r1) := spanChars Js.isDigit s in
  let '(frac, r2) :=
    match r1 with
    | String "." t => spanChars Js.isDigit t
    | _ => (EmptyString, r1)
    end in
  let wellFormed :=
    match int, frac with
    | EmptyString, EmptyString => false
    | _, _ => true
    end in
  if wellFormed then
    match parseExponent r2 with
    | Some e =>
        Some (digitsValue 10 0 (int +:+ frac),
              e - Z.of_nat (String.length frac))
    | None => None
    end
  else None.

Definition parseSigned (neg : bool) (s : string) : number :=
  if String.eqb s "Infinity" then S754_infinity neg
  else
    match parseDecimal s with
    | Some (m, e) => ofQ neg (scale10 (if neg then - m else m) e)
    | None => NaN
    end.

Definition ofString (s : string) : number :=
  match Js.trim s with
  | EmptyString => S754_zero false
  | String "0" (String "x" r) | String "0" (String "X" r) => parseRadix 16 r
  | String "0" (String "o" r) | String "0" (String "O" r) => parseRadix 8 r
  | String "0" (String "b" r) | String "0" (String "B" r) => parseRadix 2 r
  | String "-" r => parseSigned true r
  | String "+" r => parseSigned false r
  | t => parseSigned false t
  end.

End Num.

(** ** Text helpers of [main.mts] *)

(** [input.replace(/([a-z0-9])([A-Z])/g, "$1 $2")]: the scan resumes after
    the two characters of a match. *)
Fixpoint camelCaseToSpaced (input : string) : string :=
  match input with
  | String c1 (String c2 rest as tail) =>
      if (Js.isLower c1 || Js.isDigit c1) && Js.isUpper c2
      then String c1 (String " " (String c2 (camelCaseToSpaced rest)))
      else String c1 (camelCaseToSpaced tail)
  | _ => input
  end.

Definition truncateString (text : string) (maxLength : nat) : string :=
  if (maxLength <? String.length text)%nat
  then Js.prefix (maxLength - 3) text +:+ "..."
  else text.

(** After a ["<"]: [[^>]+>] matches when a [">"] follows at least one other
    character. *)
Fixpoint closesTag (seen : bool) (s : string) : bool :=
  match s with
  | String c r => if (c =? ">")%char then seen else closesTag true r
  | EmptyString => false
  end.

(** [/<[^>]+>/.test(text)]. *)
Fixpoint containsHtmlOrMarkdown (text : string) : bool :=
  match text with
  | String c r =>
      ((c =? "<")%char && closesTag false r) || containsHtmlOrMarkdown r
  | EmptyString => false
  end.

Definition isZero (c : ascii) : bool := (c =? "0")%char.

(** [s.replace(/\.0+$/, "")]. *)
Fixpoint replaceZeroFraction (s : string) : string :=
  match s with
  | String c r =>
      if (c =? ".")%char && negb (String.eqb r "") && Js.allChars isZero r
      then EmptyString
      else String c (replaceZeroFraction r)
  | EmptyString => EmptyString
  end.

(** What the lazy [\d*?] keeps before a final run of zeros. *)
Fixpoint dropTrailingZeros (s : string) : string :=
  match s with
  | String c r =>
      if Js.allChars isZero s then EmptyString
      else String c (dropTrailingZeros r)
  | EmptyString => EmptyString
  end.

(** [s.replace(/(\.\d*?)0+$/, "$1")]. *)
Fixpoint replaceTrailingZeros (s : string) : string :=
  match s with
  | String c r =>
      if (c =? ".")%char && Js.allChars Js.isDigit r
         && negb (String.eqb (dropTrailingZeros r) r)
      then String c (dropTrailingZeros r)
      else String c (replaceTrailingZeros r)
  | EmptyString => EmptyString
  end.

(** ** Numeric abbreviation *)

Definition abbreviateNumberString (input : string) : string :=
  let n := Num.ofString input in
  if negb (Num.isFinite n) then input
  else
    let abs := Num.abs n in
    if Num.geb abs (Num.ofZ 1000000) then
      Num.toString (Num.round (Num.div n (Num.ofZ 1000000))) +:+ "M"
    else if Num.geb abs (Num.ofZ 1000) then
      Num.toString (Num.round (Num.div n (Num.ofZ 1000))) +:+ "k"
    else if Num.ltb abs (Num.ofZ 1) then
      Num.toString (Num.ofString (Num.toPrecision n 4))
    else
      let fixed :=
        if Num.gtb (Num.abs (Num.mod1 n)) (Num.ofZ 0)
        then Num.toFixed n 4 else Num.toString n in
      replaceTrailingZeros (replaceZeroFraction fixed).

(** ** Records *)

Record FactoryInfo := {
  type : string;
  (** [None]: the field does not hold a number. *)
  version : option Num.number
}.

Record StableParamsInfo := { amp : string }.
Record WeightedParamsInfo := { weights : list string }.
Record Gyro2ParamsInfo := { sqrtAlpha : string; sqrtBeta : string }.
Record GyroEParamsInfo := { alpha : string; beta : string }.
Record LBPParamsInfo :=
  { owner : string; projectToken : string; reserveToken : string }.
Record QuantAMMWeightedParamsInfo :=
  { epsilonMax : string; maxTradeSizeRatio : string }.
Record ReClammParamsInfo := { lastTimestamp : string }.

Record Pool := {
  id : string;
  address : string;
  (** [None]: no factory object ([pool.factory?.type ?? ""]). *)
  factory : option FactoryInfo;
  stableParams : option StableParamsInfo;
  weightedParams : option WeightedParamsInfo;
  gyro2Params : option Gyro2ParamsInfo;
  gyroEParams : option GyroEParamsInfo;
  lbpParams : option LBPParamsInfo;
  quantAMMWeightedParams : option QuantAMMWeightedParamsInfo;
  reClammParams : option ReClammParamsInfo
}.

Record ContractTag := {
  ContractAddress : string;
  PublicNameTag : string;
  ProjectName : string;
  UIWebsiteLink : string;
  PublicNote : string
}.

(** ** From pools to tags *)

(** A string is truthy when it is not empty. *)
Definition truthy (s : string) : bool := negb (String.eqb s "").

(** [pool.factory?.type ?? ""]. *)
Definition typeText (pool : Pool) : string :=
  match factory pool with
  | Some f => type f
  | None => ""
  end.

Definition field {A} (get : A -> string) (o : option A) : string :=
  match o with
  | Some a => get a
  | None => ""
  end.

Definition buildParamsSnippet (pool : Pool) : string :=
  let t := typeText pool in
  if String.eqb t "Stable" then
    let amp := field amp (stableParams pool) in
    if truthy amp then "amp=" +:+ abbreviateNumberString amp else ""
  else if String.eqb t "Weighted" then
    match weightedParams pool with
    | Some w =>
        "weights=" +:+ Num.toString (Num.ofZ (Z.of_nat (length (weights w))))
    | None => ""
    end
  else if String.eqb t "Gyro2" then
    let a := field sqrtAlpha (gyro2Params pool) in
    let b := field sqrtBeta (gyro2Params pool) in
    if truthy a && truthy b
    then "sA=" +:+ abbreviateNumberString a +:+ ", sB=" +:+
         abbreviateNumberString b
    else ""
  else if String.eqb t "GyroE" then
    let a := field alpha (gyroEParams pool) in
    let b := field beta (gyroEParams pool) in
    if truthy a && truthy b
    then "a=" +:+ abbreviateNumberString a +:+ ", b=" +:+
         abbreviateNumberString b
    else ""
  else if String.eqb t "QuantAMMWeighted" then
    let e := field epsilonMax (quantAMMWeightedParams pool) in
    let m := field maxTradeSizeRatio (quantAMMWeightedParams pool) in
    if truthy e && truthy m
    then "eMax=" +:+ abbreviateNumberString e +:+ ", mTSR=" +:+
         abbreviateNumberString m
    else ""
  else if String.eqb t "LBP" then ""
  else if String.eqb t "ReClamm" then
    let ts := field lastTimestamp (reClammParams pool) in
    if truthy ts then "ts=" +:+ abbreviateNumberString ts else ""
  else "".

(** [containsHtmlOrMarkdown(typeText) || !typeText]. *)
Definition poolTypeInvalid (pool : Pool) : bool :=
  containsHtmlOrMarkdown (typeText pool) || negb (truthy (typeText pool)).

Definition versionText (pool : Pool) : string :=
  match factory pool with
  | Some {| version := Some v |} => " v" +:+ Num.toString v
  | _ => ""
  end.

Definition baseName (pool : Pool) : string :=
  camelCaseToSpaced (typeText pool) +:+ " Pool" +:+ versionText pool.

(** The body of the [map] callback of [transformPoolsToTags]. *)
Definition poolToTag (chainId : string) (pool : Pool) : ContractTag :=
  let typeText := camelCaseToSpaced (typeText pool) in
  let paramsSnippet := buildParamsSnippet pool in
  let nameTag := truncateString (baseName pool) 50 in
  let paramsNote :=
    if truthy paramsSnippet
       && (0 <? String.length (Js.trim paramsSnippet))%nat
    then " Params: " +:+ paramsSnippet +:+ "." else "" in
  let publicNote := "A Balancer v3 '" +:+ typeText +:+ "' pool." +:+ paramsNote in
  {| ContractAddress := "eip155:" +:+ chainId +:+ ":" +:+ address pool;
     PublicNameTag := nameTag;
     ProjectName := "Balancer v3";
     UIWebsiteLink := "https://balancer.fi";
     PublicNote := publicNote |}.

Definition transformPoolsToTags (chainId : string) (pools : list Pool)
  : list ContractTag :=
  let validPools := filter (fun pool => poolTypeInvalid pool = false) pools in
  map (poolToTag chainId) validPools.

(** ** Thrown values *)

(** What a [throw] or a rejected promise carries: an object with a [name]
    and a [message], or any other value. *)
Inductive Thrown :=
  | JsError (name message : string)
  | NonError.

(** [new Error(message)]. *)
Definition newError (message : string) : Thrown := JsError "Error" message.

Definition isError (e : Thrown) : bool :=
  match e with
  | JsError _ _ => true
  | NonError => false
  end.

(** [`${error}`] for an error: Error.prototype.toString. *)
Definition errorToString (e : Thrown) : string :=
  match e with
  | JsError name message =>
      if String.eqb name "" then message
      else if String.eqb message "" then name
      else name +:+ ": " +:+ message
  | NonError => ""
  end.

(** ** The subgraph *)

Record Request := { url : string; cursor : string }.

Record GraphQLData := { pools : option (list Pool) }.

Record GraphQLResponse := {
  data : option GraphQLData;
  errors : option (list string)
}.

Inductive Reply :=
  (** [fetch] rejects; the 30 s timer rejects with the name [AbortError]. *)
  | Rejected (e : Thrown)
  (** [fetch] resolves; [body] is what [response.json()] settles to. *)
  | Responded (ok : bool) (status : Z) (body : Thrown + GraphQLResponse).

(** The reply to the [i]-th request of a run. *)
Definition Source : Type := nat -> Request -> Reply.

(** [e?.name === "AbortError"]. *)
Definition isAbortError (e : Thrown) : bool :=
  match e with
  | JsError name _ => String.eqb name "AbortError"
  | NonError => false
  end.

Definition fetchData (src : Source) (i : nat) (subgraphUrl lastId : string)
  : Thrown + list Pool :=
  match src i {| url := subgraphUrl; cursor := lastId |} with
  | Rejected e =>
      if isAbortError e
      then inl (newError "Request timed out while querying the subgraph.")
      else inl e
  | Responded false status _ =>
      inl (newError ("HTTP error: " +:+ Num.toString (Num.ofZ status)))
  | Responded true _ (inl e) => inl e
  | Responded true _ (inr result) =>
      match errors result with
      | Some _ => inl (newError "GraphQL errors occurred: see logs for details.")
      | None =>
          match data result with
          | Some {| pools := Some ps |} => inr ps
          | _ => inl (newError "No pools data found.")
          end
      end
  end.

(** ** The endpoint *)

(** The [decentralized] url of chain 42161. *)
Definition decentralized : string :=
  "https://gateway-arbitrum.network.thegraph.com/api/[api-key]/deployments/id/QmbxeZen77LdqpPeWU2AxdnXfXygw33jGgByWWoa2sZnPY".

Definition SUBGRAPH_URLS : gmap string string := {[ "42161" := decentralized ]}.

Definition isUriUnreserved (c : ascii) : bool :=
  Js.isLower c || Js.isUpper c || Js.isDigit c
  || bool_decide (c ∈ ["-"; "_"; "."; "!"; "~"; "*"; "'"; "("; ")"]%char).

Definition hexDigit (n : Z) : ascii :=
  if n <? 10 then Js.chr (48 + n) else Js.chr (55 + n).

Definition percent (b : Z) : string :=
  String "%" (String (hexDigit (b / 16)) (String (hexDigit (b mod 16)) "")).

(** [encodeURIComponent]: every code unit but the unreserved ones is
    replaced by the escaped bytes of its UTF-8 form. *)
Fixpoint encodeURIComponent (s : string) : string :=
  match s with
  | String c r =>
      (if isUriUnreserved c then String c ""
       else if Js.code c <? 128 then percent (Js.code c)
       else percent (192 + Js.code c / 64) +:+ percent (128 + Js.code c mod 64))
      +:+ encodeURIComponent r
  | EmptyString => EmptyString
  end.

(** [s.replace(pattern, by)] for a non-empty string pattern and a
    replacement without [$]. *)
Fixpoint replaceFirst (pattern by_ s : string) : string :=
  match s with
  | String c r =>
      if String.prefix pattern s
      then by_ +:+ Js.dropChars (String.length pattern) s
      else String c (replaceFirst pattern by_ r)
  | EmptyString => EmptyString
  end.

Definition prepareUrl (chainId apiKey : string) : Thrown + string :=
  match SUBGRAPH_URLS !! chainId with
  | None => inl (newError ("Unsupported Chain ID: " +:+ chainId +:+ "."))
  | Some urls =>
      inr (replaceFirst "[api-key]" (encodeURIComponent apiKey) urls)
  end.

(** ** The pagination loop *)

Record LoopState := {
  lastId : string;
  prevLastId : string;
  allTags : list ContractTag;
  seenPoolIds : gset string;
  (** The requests sent so far, oldest first. *)
  sent : list Request
}.

Definition initialState : LoopState :=
  {| lastId := "0x0000000000000000000000000000000000000000";
     prevLastId := "";
     allTags := [];
     seenPoolIds := ∅;
     sent := [] |}.

(** [pools.filter(p => ...)] over the set of identifiers seen so far. *)
Fixpoint filterNew (seen : gset string) (pools : list Pool)
  : list Pool * gset string :=
  match pools with
  | [] => ([], seen)
  | p :: rest =>
      if decide (id p ∈ seen) then filterNew seen rest
      else
        let '(kept, seen') := filterNew ({[id p]} ∪ seen) rest in
        (p :: kept, seen')
  end.

Definition stallError : Thrown :=
  newError "Pagination cursor did not advance; aborting to prevent an infinite loop.".

(** [undefined.id]. *)
Definition typeError : Thrown :=
  JsError "TypeError" "Cannot read properties of undefined (reading 'id')".

Definition pageSize : nat := 1000.

(** The [try] block: the state it leaves, and either the thrown value or
    [isMore]. *)
Definition tryBlock (src : Source) (url effectiveChainId : string)
    (st : LoopState) : LoopState * (Thrown + bool) :=
  let sent' := sent st ++ [{| url := url; cursor := lastId st |}] in
  match fetchData src (length (sent st)) url (lastId st) with
  | inl e =>
      ({| lastId := lastId st; prevLastId := prevLastId st;
          allTags := allTags st; seenPoolIds := seenPoolIds st;
          sent := sent' |}, inl e)
  | inr pools =>
      let '(newPools, seen') := filterNew (seenPoolIds st) pools in
      let pageTags := transformPoolsToTags effectiveChainId newPools in
      let tags' := allTags st ++ pageTags in
      let st' := {| lastId := lastId st; prevLastId := prevLastId st;
                    allTags := tags'; seenPoolIds := seen'; sent := sent' |} in
      if (length pools =? pageSize)%nat then
        match last pools with
        | None => (st', inl typeError)
        | Some p =>
            let nextLastId := id p in
            if negb (truthy nextLastId)
               || String.eqb nextLastId (lastId st)
               || String.eqb nextLastId (prevLastId st)
            then (st', inl stallError)
            else
              ({| lastId := nextLastId; prevLastId := lastId st;
                  allTags := tags'; seenPoolIds := seen'; sent := sent' |},
               inr true)
        end
      else (st', inr false)
  end.

(** The [catch] block: what is thrown in place of [error]. *)
Definition catchBlock (error : Thrown) : Thrown :=
  if isError error
  then newError ("Failed fetching data: " +:+ errorToString error)
  else newError "An unknown error occurred during fetch operation.".

(** How a call ended, and the requests it sent. *)
Record Run := {
  outcome : Thrown + list ContractTag;
  requests : list Request
}.

Fixpoint whileLoop (fuel : nat) (src : Source) (url effectiveChainId : string)
    (st : LoopState) : option Run :=
  match fuel with
  | O => None
  | S fuel' =>
      match tryBlock src url effectiveChainId st with
      | (st', inl e) =>
          Some {| outcome := inl (catchBlock e); requests := sent st' |}
      | (st', inr true) => whileLoop fuel' src url effectiveChainId st'
      | (st', inr false) =>
          Some {| outcome := inr (allTags st'); requests := sent st' |}
      end
  end.

Definition unsupportedChain (chainId : string) : Thrown :=
  newError ("Unsupported Chain ID: " +:+ chainId +:+ ".").

Definition missingKey : Thrown :=
  newError "Missing API key. A The Graph gateway API key is required.".

(** [None] when the fuel runs out before the loop ends. *)
Definition returnTags (fuel : nat) (src : Source) (chainId apiKey : string)
  : option Run :=
  let chainIdNum := Num.ofString chainId in
  if negb (Num.isInteger chainIdNum) then
    Some {| outcome := inl (unsupportedChain chainId); requests := [] |}
  else if negb (Num.eqb chainIdNum (Num.ofZ 42161)) then
    Some {| outcome := inl (unsupportedChain chainId); requests := [] |}
  else if negb (truthy apiKey) || (String.length (Js.trim apiKey) =? 0)%nat then
    Some {| outcome := inl missingKey; requests := [] |}
  else
    let effectiveChainId := Num.toString chainIdNum in
    match prepareUrl effectiveChainId apiKey with
    | inl e => Some {| outcome := inl e; requests := [] |}
    | inr url => whileLoop fuel src url effectiveChainId initialState
    end.

(** * Definitions for the properties *)

(** ** Text *)

Definition notGt (c : ascii) : bool := negb (c =? ">")%char.

Definition notLt (c : ascii) : bool := negb (c =? "<")%char.


(** The specification's notion of markup: a ["<"], an interior of at least
    one character that ends at the first [">"], and that [">"]. *)
Definition hasMarkup (s : string) : Prop :=
  exists pre mid post,
    s = pre +:+ String "<" (mid +:+ String ">" post)
    /\ mid <> "" /\ Js.allChars notGt mid = true.

(** The characters a number is written with. *)
Definition isNumberChar (c : ascii) : bool :=
  Js.isDigit c
  || bool_decide (c ∈ ["."; "e"; "+"; "-"; "N"; "a"; "I"; "n"; "f"; "i";
                         "t"; "y"]%char).

(** [p] holds of the whole numbers below [n]. *)
Fixpoint allBelow (p : Z -> bool) (n : nat) : bool :=
  match n with
  | O => true
  | S k => p (Z.of_nat k) && allBelow p k
  end.

(** ** Arguments *)

(** The chain is the supported one when its numeric value is 42161. *)
Definition isSupportedChain (chainId : string) : bool :=
  Num.eqb (Num.ofString chainId) (Num.ofZ 42161).

(** The number 42161. *)
Definition arbitrum : Num.number := S754_finite false 5794563717332992 (-37).

(** A key is blank when it is empty or holds white space only. *)
Definition isBlank (apiKey : string) : bool :=
  Js.allChars Js.isWhiteSpace apiKey.

(** The url the requests of a run go to. *)
Definition endpoint (apiKey : string) : string :=
  replaceFirst "[api-key]" (encodeURIComponent apiKey) decentralized.

(** ** States of a run *)

Definition request (u c : string) : Request := {| url := u; cursor := c |}.

Definition requestOf (url : string) (st : LoopState) : Request :=
  {| url := url; cursor := lastId st |}.

(** The guard of the cursor: the identifier that ends a full page is
    empty, or is the cursor of this request, or the cursor before it. *)
Definition stalls (st : LoopState) (nextLastId : string) : bool :=
  negb (truthy nextLastId)
  || String.eqb nextLastId (lastId st)
  || String.eqb nextLastId (prevLastId st).

(** The state once a page is taken in: its new records are formatted and
    their identifiers remembered; the cursor is as before. *)
Definition withPage (url chain : string) (st : LoopState) (pools : list Pool)
  : LoopState :=
  {| lastId := lastId st; prevLastId := prevLastId st;
     allTags := allTags st
                ++ transformPoolsToTags chain (filterNew (seenPoolIds st) pools).1;
     seenPoolIds := (filterNew (seenPoolIds st) pools).2;
     sent := sent st ++ [requestOf url st] |}.

(** The state once the cursor has moved to [next]. *)
Definition withCursor (next : string) (st : LoopState) (old : string)
  : LoopState :=
  {| lastId := next; prevLastId := old;
     allTags := allTags st; seenPoolIds := seenPoolIds st; sent := sent st |}.

(** The state after [k] iterations that each went on to the next. *)
Fixpoint stateAfter (src : Source) (url chain : string) (k : nat)
    (st : LoopState) : option LoopState :=
  match k with
  | O => Some st
  | S k' =>
      match tryBlock src url chain st with
      | (st', inr true) => stateAfter src url chain k' st'
      | _ => None
      end
  end.

(** How an iteration can fail: what the subgraph sent, and what is thrown
    in the [try] block. *)
Inductive IterationFails (src : Source) (url : string) (st : LoopState)
  : Thrown -> Prop :=
  | FailsTimeout (e : Thrown) :
      src (length (sent st)) (requestOf url st) = Rejected e ->
      isAbortError e = true ->
      IterationFails src url st
        (newError "Request timed out while querying the subgraph.")
  | FailsTransport (e : Thrown) :
      src (length (sent st)) (requestOf url st) = Rejected e ->
      isAbortError e = false ->
      IterationFails src url st e
  | FailsStatus (status : Z) (body : Thrown + GraphQLResponse) :
      src (length (sent st)) (requestOf url st) = Responded false status body ->
      IterationFails src url st
        (newError ("HTTP error: " +:+ Num.toString (Num.ofZ status)))
  | FailsMalformed (status : Z) (e : Thrown) :
      src (length (sent st)) (requestOf url st) = Responded true status (inl e) ->
      IterationFails src url st e
  | FailsErrors (status : Z) (result : GraphQLResponse) (messages : list string) :
      src (length (sent st)) (requestOf url st)
      = Responded true status (inr result) ->
      errors result = Some messages ->
      IterationFails src url st
        (newError "GraphQL errors occurred: see logs for details.")
  | FailsNoData (status : Z) (result : GraphQLResponse) :
      src (length (sent st)) (requestOf url st)
      = Responded true status (inr result) ->
      errors result = None ->
      data result = None \/ data result = Some {| pools := None |} ->
      IterationFails src url st (newError "No pools data found.")
  | FailsStall (pools : list Pool) (p : Pool) :
      fetchData src (length (sent st)) url (lastId st) = inr pools ->
      length pools = pageSize ->
      last pools = Some p ->
      id p = "" \/ id p = lastId st \/ id p = prevLastId st ->
      IterationFails src url st stallError.

(** ** Pages *)

(** The specification's filter: a record is kept when no record before it
    carries its identifier. *)
Fixpoint firstOccurrences (earlier : list string) (l : list Pool) : list Pool :=
  match l with
  | [] => []
  | p :: rest =>
      if decide (id p ∈ earlier) then firstOccurrences earlier rest
      else p :: firstOccurrences (id p :: earlier) rest
  end.

(** The records a run keeps of all it was sent. *)
Definition deduplicate (l : list Pool) : list Pool := firstOccurrences [] l.

(** The identifier that ends a page. *)
Definition lastIdOf (page : list Pool) : string :=
  from_option id "" (last page).

(** The cursors the pages are requested with, the first being [c]. *)
Fixpoint cursorsFrom (c : string) (pages : list (list Pool)) : list string :=
  match pages with
  | [] => []
  | page :: rest => c :: cursorsFrom (lastIdOf page) rest
  end.

(** The source answers the requests from the [i]-th on, the first with the
    cursor [c], with the pages in turn. *)
Fixpoint serves (src : Source) (url : string) (i : nat) (c : string)
    (pages : list (list Pool)) : Prop :=
  match pages with
  | [] => True
  | page :: rest =>
      fetchData src i url c = inr page
      /\ serves src url (S i) (lastIdOf page) rest
  end.

(** No page ends with an empty identifier, with the cursor of its request
    or with the cursor before that. *)
Fixpoint advances (prev cur : string) (pages : list (list Pool)) : Prop :=
  match pages with
  | [] => True
  | page :: rest =>
      lastIdOf page <> "" /\ lastIdOf page <> cur /\ lastIdOf page <> prev
      /\ advances cur (lastIdOf page) rest
  end.

(** The contract of the fetcher: every full page ends beyond the cursor it
    was requested with, in the order of the code units. *)
Fixpoint beyondCursor (cur : string) (pages : list (list Pool)) : Prop :=
  match pages with
  | [] => True
  | page :: rest =>
      strict String.le cur (lastIdOf page)
      /\ beyondCursor (lastIdOf page) rest
  end.

(** ** Sample records and sources *)

Definition samplePool (ident kind : string) : Pool :=
  {| id := ident; address := ident;
     factory := Some {| type := kind; version := Some (Num.ofZ 1) |};
     stableParams := None; weightedParams := None; gyro2Params := None;
     gyroEParams := None; lbpParams := None;
     quantAMMWeightedParams := None; reClammParams := None |}.

Definition replyWith (ps : list Pool) : Reply :=
  Responded true 200 (inr {| data := Some {| pools := Some ps |};
                             errors := None |}).

(** A page of 1000 records that ends with the identifier [ident]. *)
Definition fullPage (ident : string) : list Pool :=
  replicate 999 (samplePool "0x01" "Stable") ++ [samplePool ident "Weighted"].

(** A version that is a number and not a whole one. *)
Definition fractionalVersionPool : Pool :=
  {| id := "0x01"; address := "0xabc";
     factory := Some {| type := "Stable";
                        version := Some (Num.ofString "1.5") |};
     stableParams := None; weightedParams := None; gyro2Params := None;
     gyroEParams := None; lbpParams := None;
     quantAMMWeightedParams := None; reClammParams := None |}.

(** A kind of 52 letters: with [" Pool v1"] the name has 60 characters. *)
Definition longNamePool : Pool :=
  {| id := "0x09"; address := "0x123";
     factory := Some {| type := Js.repeatChar "a" 52;
                        version := Some (Num.ofZ 1) |};
     stableParams := None; weightedParams := None; gyro2Params := None;
     gyroEParams := None; lbpParams := None;
     quantAMMWeightedParams := None; reClammParams := None |}.

(** A parameter that holds markup. *)
Definition markupParameterPool : Pool :=
  {| id := "0x01"; address := "0xabc";
     factory := Some {| type := "Stable"; version := Some (Num.ofZ 1) |};
     stableParams := Some {| amp := "<b>" |};
     weightedParams := None; gyro2Params := None; gyroEParams := None;
     lbpParams := None; quantAMMWeightedParams := None;
     reClammParams := None |}.

Definition lbpPool : Pool :=
  {| id := "0x07"; address := "0xdef";
     factory := Some {| type := "LBP"; version := Some (Num.ofZ 1) |};
     stableParams := Some {| amp := "5000" |};
     weightedParams := Some {| weights := ["1"; "2"] |};
     gyro2Params := None; gyroEParams := None;
     lbpParams := Some {| owner := "0x1"; projectToken := "0x2";
                          reserveToken := "0x3" |};
     quantAMMWeightedParams := None; reClammParams := None |}.

(** No request is answered. *)
Definition silentSource : Source := fun _ _ => Rejected NonError.

(** Every page is full and ends with the first cursor. *)
Definition stallingSource : Source :=
  fun _ _ => replyWith (fullPage "0x0000000000000000000000000000000000000000").

(** One record, whose identifier is the first cursor. *)
Definition shortStallingSource : Source :=
  fun _ _ =>
    replyWith [samplePool "0x0000000000000000000000000000000000000000" "Stable"].

(** A full page, then a failure. *)
Definition advancingSource : Source :=
  fun i _ =>
    match i with
    | O => replyWith (fullPage "0x02")
    | _ => Responded false 503 (inl NonError)
    end.

(** A full page, then a short one that repeats an identifier and holds a
    record without a kind. *)
Definition twoPageSource : Source :=
  fun i _ =>
    match i with
    | O => replyWith (fullPage "0x02")
    | _ => replyWith [samplePool "0x02" "Stable"; samplePool "0x03" "GyroE";
                      samplePool "0x04" ""]
    end.

(** A full page that ends with the first cursor, then a short page. *)
Definition stallThenFinalSource : Source :=
  fun i _ =>
    match i with
    | O => replyWith (fullPage "0x0000000000000000000000000000000000000000")
    | _ => replyWith [samplePool "0x05" "Stable"]
    end.

(** ** Boundaries of the kind *)

(** A lowercase letter or a digit directly followed by an uppercase
    letter. *)
Definition isBoundary (c1 c2 : ascii) : bool :=
  (Js.isLower c1 || Js.isDigit c1) && Js.isUpper c2.

Fixpoint countBoundaries (s : string) : nat :=
  match s with
  | String c1 (String c2 _ as tail) =>
      ((if isBoundary c1 c2 then 1 else 0) + countBoundaries tail)%nat
  | _ => 0%nat
  end.

Fixpoint removeSpaces (s : string) : string :=
  match s with
  | String c r =>
      if (c =? " ")%char then removeSpaces r else String c (removeSpaces r)
  | EmptyString => EmptyString
  end.

(** ** Parameters *)

(** The characters an abbreviated number is written with. *)
Definition isAbbreviationChar (c : ascii) : bool :=
  isNumberChar c || (c =? "M")%char || (c =? "k")%char.

(** The texts of the parameters that a snippet can show. *)
Definition parameterTexts (pool : Pool) : list string :=
  [field amp (stableParams pool);
   field sqrtAlpha (gyro2Params pool); field sqrtBeta (gyro2Params pool);
   field alpha (gyroEParams pool); field beta (gyroEParams pool);
   field epsilonMax (quantAMMWeightedParams pool);
   field maxTradeSizeRatio (quantAMMWeightedParams pool);
   field lastTimestamp (reClammParams pool)].

Definition numericStablePool (text : string) : Pool :=
  {| id := "0x01"; address := "0xabc";
     factory := Some {| type := "Stable"; version := Some (Num.ofZ 1) |};
     stableParams := Some {| amp := text |};
     weightedParams := None; gyro2Params := None; gyroEParams := None;
     lbpParams := None; quantAMMWeightedParams := None;
     reClammParams := None |}.

(** ** The url *)

(** The characters an encoded key is written with. *)
Definition isUriSafe (c : ascii) : bool :=
  isUriUnreserved c || (c =? "%")%char.

Definition notBracket (c : ascii) : bool := negb (c =? "[")%char.

Definition notDollar (c : ascii) : bool := negb (c =? "$")%char.

(** What stands before and after the key in the url. *)
Definition gatewayPrefix : string :=
  "https://gateway-arbitrum.network.thegraph.com/api/".

Definition deploymentSuffix : string :=
  "/deployments/id/QmbxeZen77LdqpPeWU2AxdnXfXygw33jGgByWWoa2sZnPY".

Definition hexValue (c : ascii) : Z :=
  if Js.isDigit c then Js.code c - 48 else Js.code c - 55.

(** Reads the escapes of [encodeURIComponent] back: one escaped byte below
    128 is a code unit, two escaped bytes are the code unit with that UTF-8
    form. *)
Fixpoint unescape (s : string) : string :=
  match s with
  | String c r =>
      if (c =? "%")%char then
        match r with
        | String h1 (String l1 r1) =>
            let b1 := 16 * hexValue h1 + hexValue l1 in
            if b1 <? 128 then String (Js.chr b1) (unescape r1)
            else
              match r1 with
              | String _ (String h2 (String l2 r2)) =>
                  let b2 := 16 * hexValue h2 + hexValue l2 in
                  String (Js.chr ((b1 - 192) * 64 + (b2 - 128))) (unescape r2)
              | _ => String c (unescape r)
              end
        | _ => String c (unescape r)
        end
      else String c (unescape r)
  | EmptyString => EmptyString
  end.

(** ** Cursors of a run *)

(** No cursor of the list is empty, or is one of the two cursors before
    it; [prev] and [cur] are the two that come before the list. *)
Fixpoint guarded (prev cur : string) (rest : list string) : Prop :=
  match rest with
  | [] => True
  | next :: rest' =>
      next <> "" /\ next <> cur /\ next <> prev /\ guarded cur next rest'
  end.

(** Three identifiers in a circle. *)
Definition nextInCycle (c : string) : string :=
  if String.eqb c "0x0a" then "0x0b"
  else if String.eqb c "0x0b" then "0x0c"
  else "0x0a".

(** Every page is full, and ends with the identifier that follows the
    cursor in the circle. *)
Definition cyclingSource : Source :=
  fun _ req => replyWith (fullPage (nextInCycle (cursor req))).

(** Full pages whose last identifiers go down, then an empty page. *)
Definition descendingSource : Source :=
  fun i _ =>
    match i with
    | 0%nat => replyWith (fullPage "0x0c")
    | 1%nat => replyWith (fullPage "0x0b")
    | 2%nat => replyWith (fullPage "0x0a")
    | _ => replyWith []
    end.

(** * Properties *)

(** ** Strings *)

Lemma string_app_cons (c : ascii) (a b : string) :
  String c a +:+ b = String c (a +:+ b).
Proof. reflexivity. Qed.

Lemma string_app_empty_l (b : string) : "" +:+ b = b.
Proof. reflexivity. Qed.

Lemma string_length_app (a b : string) :
  String.length (a +:+ b) = (String.length a + String.length b)%nat.
Proof.
  induction a as [|c a IH]; [done|]. rewrite string_app_cons. simpl. by rewrite IH.
Qed.

Lemma string_app_assoc (a b c : string) : (a +:+ b) +:+ c = a +:+ (b +:+ c).
Proof.
  induction a as [|x a IH]; [done|]. rewrite !string_app_cons. by rewrite IH.
Qed.

Lemma string_app_empty_r (a : string) : a +:+ "" = a.
Proof.
  induction a as [|x a IH]; [done|]. rewrite string_app_cons. by rewrite IH.
Qed.

Lemma length_prefix (n : nat) (s : string) :
  (n <= String.length s)%nat -> String.length (Js.prefix n s) = n.
Proof.
  revert s. induction n as [|n IH]; intros [|c s] H; simpl in *; try lia; try done.
  rewrite IH; lia.
Qed.

Lemma prefix_dropChars (n : nat) (s : string) :
  Js.prefix n s +:+ Js.dropChars n s = s.
Proof.
  revert s. induction n as [|n IH]; intros [|c s]; simpl; try done.
  rewrite string_app_cons. by rewrite IH.
Qed.

Lemma allChars_app (p : ascii -> bool) (a b : string) :
  Js.allChars p (a +:+ b) = Js.allChars p a && Js.allChars p b.
Proof.
  induction a as [|c a IH]; [done|]. rewrite string_app_cons. simpl.
  rewrite IH. by destruct (p c).
Qed.

Lemma allChars_rev_app (p : ascii -> bool) (a b : string) :
  Js.allChars p (String.rev_app a b) = Js.allChars p a && Js.allChars p b.
Proof.
  revert b. induction a as [|c a IH]; intros b; simpl; [done|].
  rewrite IH. simpl. destruct (p c), (Js.allChars p a); done.
Qed.

Lemma allChars_rev (p : ascii -> bool) (a : string) :
  Js.allChars p (String.rev a) = Js.allChars p a.
Proof. unfold String.rev. rewrite allChars_rev_app. simpl. by rewrite andb_true_r. Qed.

Lemma allChars_prefix (p : ascii -> bool) (n : nat) (s : string) :
  Js.allChars p s = true -> Js.allChars p (Js.prefix n s) = true.
Proof.
  revert s. induction n as [|n IH]; intros [|c s]; simpl; try done.
  intros [Hc Hs]%andb_prop. rewrite Hc. simpl. by apply IH.
Qed.

Lemma allChars_dropChars (p : ascii -> bool) (n : nat) (s : string) :
  Js.allChars p s = true -> Js.allChars p (Js.dropChars n s) = true.
Proof.
  revert s. induction n as [|n IH]; intros [|c s]; simpl; try done.
  intros [Hc Hs]%andb_prop. by apply IH.
Qed.

Lemma allChars_impl (p q : ascii -> bool) (s : string) :
  (forall c, p c = true -> q c = true) ->
  Js.allChars p s = true -> Js.allChars q s = true.
Proof.
  intros Hpq. induction s as [|c s IH]; simpl; [done|].
  intros [Hc Hs]%andb_prop. rewrite (Hpq _ Hc). simpl. by apply IH.
Qed.

Lemma rev_app_empty (a b : string) : String.rev_app a b = "" -> a = "" /\ b = "".
Proof.
  revert b. induction a as [|c a IH]; intros b; simpl; [done|].
  intros H. apply IH in H as [_ H]. discriminate.
Qed.

Lemma trimStart_empty (s : string) :
  Js.trimStart s = "" <-> Js.allChars Js.isWhiteSpace s = true.
Proof.
  induction s as [|c s IH]; simpl; [done|].
  destruct (Js.isWhiteSpace c); simpl; [done|]. split; discriminate.
Qed.

Lemma trimStart_idem (s : string) :
  Js.trimStart (Js.trimStart s) = Js.trimStart s.
Proof.
  induction s as [|c s IH]; simpl; [done|].
  destruct (Js.isWhiteSpace c) eqn:Hc; [done|]. simpl. by rewrite Hc.
Qed.

(** Trimming leaves nothing exactly when all is white space. *)
Lemma trim_empty (s : string) :
  Js.trim s = "" <-> Js.allChars Js.isWhiteSpace s = true.
Proof.
  unfold Js.trim, String.rev. split.
  - intros H. apply rev_app_empty in H as [H _].
    apply trimStart_empty in H. rewrite allChars_rev_app in H.
    apply andb_prop in H as [H _]. apply trimStart_empty in H.
    rewrite trimStart_idem in H. by apply trimStart_empty.
  - intros H. apply trimStart_empty in H. by rewrite H.
Qed.


(** ** HTML-like markup *)

Lemma closesTag_spec (seen : bool) (r : string) :
  closesTag seen r = true <->
  exists mid post,
    r = mid +:+ String ">" post /\ Js.allChars notGt mid = true
    /\ (seen = true \/ mid <> "").
Proof.
  revert seen. induction r as [|c r IH]; intros seen; simpl.
  - split; [done|]. intros (mid & post & H & _). by destruct mid.
  - destruct (c =? ">")%char eqn:Hc.
    + apply Ascii.eqb_eq in Hc as ->. split.
      * intros ->. exists "", r. auto.
      * intros ([|x mid] & post & H & Hm & Hs).
        -- by destruct Hs.
        -- rewrite string_app_cons in H. injection H as <- _. done.
    + rewrite IH. split.
      * intros (mid & post & -> & Hm & _). exists (String c mid), post.
        rewrite string_app_cons. simpl. unfold notGt at 1. rewrite Hc. simpl.
        repeat split; auto.
      * intros ([|x mid] & post & H & Hm & Hs).
        -- rewrite string_app_empty_l in H. injection H as -> _.
           by rewrite Ascii.eqb_refl in Hc.
        -- rewrite string_app_cons in H. injection H as <- ->. simpl in Hm.
           apply andb_prop in Hm as [_ Hm]. exists mid, post. auto.
Qed.

(** The test of the source finds exactly the specification's markup. *)
Lemma containsHtmlOrMarkdown_spec (s : string) :
  containsHtmlOrMarkdown s = true <-> hasMarkup s.
Proof.
  induction s as [|c s IH]; simpl.
  - split; [done|]. intros ([|x pre] & mid & post & H & _); done.
  - rewrite orb_true_iff, andb_true_iff, IH, closesTag_spec. split.
    + intros [[Hc (mid & post & -> & Hm & [?|Hne])] | (pre & mid & post & -> & H)];
        try done.
      * apply Ascii.eqb_eq in Hc as ->. exists "", mid, post. auto.
      * exists (String c pre), mid, post. auto.
    + intros ([|x pre] & mid & post & H & Hne & Hm).
      * rewrite string_app_empty_l in H. injection H as -> ->. left.
        split; [apply Ascii.eqb_refl|]. exists mid, post. auto.
      * rewrite string_app_cons in H. injection H as <- ->. right.
        exists pre, mid, post. auto.
Qed.

Lemma containsHtmlOrMarkdown_false (s : string) :
  containsHtmlOrMarkdown s = false <-> ~ hasMarkup s.
Proof.
  rewrite <- containsHtmlOrMarkdown_spec. by destruct (containsHtmlOrMarkdown s).
Qed.

Lemma truthy_spec (s : string) : truthy s = true <-> s <> "".
Proof.
  unfold truthy. destruct (String.eqb_spec s ""); simpl; split; try done.
Qed.

Lemma poolTypeInvalid_spec (pool : Pool) :
  poolTypeInvalid pool = true <->
  typeText pool = "" \/ hasMarkup (typeText pool).
Proof.
  unfold poolTypeInvalid. rewrite orb_true_iff, containsHtmlOrMarkdown_spec.
  rewrite negb_true_iff. unfold truthy. rewrite negb_false_iff.
  destruct (String.eqb_spec (typeText pool) ""); split; intros [?|?]; auto; done.
Qed.

Lemma transformPoolsToTags_app (chainId : string) (a b : list Pool) :
  transformPoolsToTags chainId (a ++ b)
  = transformPoolsToTags chainId a ++ transformPoolsToTags chainId b.
Proof. unfold transformPoolsToTags. by rewrite filter_app, map_app. Qed.

Lemma transformPoolsToTags_cons (chainId : string) (p : Pool) (l : list Pool) :
  transformPoolsToTags chainId (p :: l)
  = (if poolTypeInvalid p then [] else [poolToTag chainId p])
    ++ transformPoolsToTags chainId l.
Proof.
  unfold transformPoolsToTags. rewrite filter_cons.
  destruct (poolTypeInvalid p); by case_decide.
Qed.

(** C6: in every batch a record is skipped exactly when its kind descriptor
    is empty or holds markup; each record before and after it contributes
    what it contributes on its own, a record that is not skipped
    contributes exactly its tag, and the transformation is a total
    function, so a skip raises nothing. *)
Theorem skip_only_invalid_type (chainId : string)
    (before after : list Pool) (pool : Pool) :
  (poolTypeInvalid pool = true <->
     typeText pool = "" \/ hasMarkup (typeText pool))
  /\ transformPoolsToTags chainId (before ++ pool :: after)
     = transformPoolsToTags chainId before
       ++ (if poolTypeInvalid pool then [] else [poolToTag chainId pool])
       ++ transformPoolsToTags chainId after.
Proof.
  split; [apply poolTypeInvalid_spec|].
  by rewrite transformPoolsToTags_app, transformPoolsToTags_cons.
Qed.

(** ** The display name *)

Lemma truncateString_short (text : string) (maxLength : nat) :
  (String.length text <= maxLength)%nat -> truncateString text maxLength = text.
Proof.
  intros H. unfold truncateString.
  destruct (Nat.ltb_spec maxLength (String.length text)); [lia | done].
Qed.

Lemma truncateString_long (text : string) (maxLength : nat) :
  (3 <= maxLength < String.length text)%nat ->
  truncateString text maxLength = Js.prefix (maxLength - 3) text +:+ "..."
  /\ String.length (truncateString text maxLength) = maxLength.
Proof.
  intros H. unfold truncateString.
  destruct (Nat.ltb_spec maxLength (String.length text)); [|lia].
  split; [done|]. rewrite string_length_app, length_prefix by lia. simpl. lia.
Qed.

Lemma truncateString_length (text : string) (maxLength : nat) :
  (3 <= maxLength)%nat ->
  (String.length (truncateString text maxLength) <= maxLength)%nat.
Proof.
  intros H. destruct (Nat.le_gt_cases (String.length text) maxLength).
  - by rewrite truncateString_short.
  - destruct (truncateString_long text maxLength) as [_ ->]; lia.
Qed.

Lemma allBelow_spec (p : Z -> bool) (n : nat) :
  allBelow p n = true -> forall z, 0 <= z < Z.of_nat n -> p z = true.
Proof.
  induction n as [|n IH]; simpl; [lia|].
  intros [Hn Hr]%andb_prop z Hz.
  destruct (decide (z = Z.of_nat n)) as [->|]; [done|]. apply IH; [done|lia].
Qed.

(** A whole number below 1000 reads as its decimal digits. *)
Lemma toString_small_integer (z : Z) :
  0 <= z < 1000 -> Num.toString (Num.ofZ z) = Js.decimal z.
Proof.
  intros Hz. apply String.eqb_eq.
  apply (allBelow_spec
           (fun z => String.eqb (Num.toString (Num.ofZ z)) (Js.decimal z))
           1000); [by vm_compute | done].
Qed.

(** C7, as the code has it: the name is the spaced kind, [" Pool"], and
    [" v"] with the version whenever the version is a number, whole or not,
    and nothing more when it is not a number; a longer name than 50 is cut
    to its first 47 characters and ["..."], 50 in all, so no name is longer
    than 50.  For a whole version below 1000 the version reads as its
    decimal digits, and a name of 60 characters comes out as 50 that end
    with ["..."]. *)
Theorem display_name_rule (chainId : string) (pool : Pool) :
  let name := PublicNameTag (poolToTag chainId pool) in
  let base :=
    camelCaseToSpaced (typeText pool) +:+ " Pool" +:+
    match factory pool ≫= version with
    | Some v => " v" +:+ Num.toString v
    | None => ""
    end in
  ((String.length base <= 50)%nat -> name = base)
  /\ ((50 < String.length base)%nat ->
      name = Js.prefix 47 base +:+ "..." /\ String.length name = 50%nat)
  /\ (String.length name <= 50)%nat
  /\ (forall z, 0 <= z < 1000 -> factory pool ≫= version = Some (Num.ofZ z) ->
      base = camelCaseToSpaced (typeText pool) +:+ " Pool v" +:+ Js.decimal z)
  /\ String.length (baseName longNamePool) = 60%nat
  /\ String.length (PublicNameTag (poolToTag chainId longNamePool)) = 50%nat
  /\ Js.dropChars 47 (PublicNameTag (poolToTag chainId longNamePool)) = "...".
Proof.
  intros name base.
  assert (Hname : name = truncateString base 50).
  { subst name base. unfold poolToTag, baseName, versionText. simpl.
    destruct (factory pool) as [[t [v|]]|]; done. }
  rewrite Hname. split; [|split; [|split; [|split; [|split; [|split]]]]].
  - apply truncateString_short.
  - intros H. apply truncateString_long. lia.
  - apply truncateString_length. lia.
  - intros z Hz Hv. subst base. rewrite Hv, toString_small_integer by done.
    done.
  - by vm_compute.
  - by vm_compute.
  - by vm_compute.
Qed.

(** C7 as stated fails: a version that is a number but not a whole one is
    still appended. *)
Lemma fractional_version_is_appended :
  factory fractionalVersionPool ≫= version = Some (Num.ofString "1.5")
  /\ Num.isInteger (Num.ofString "1.5") = false
  /\ PublicNameTag (poolToTag "42161" fractionalVersionPool)
     = "Stable Pool v1.5"
  /\ PublicNameTag (poolToTag "42161" fractionalVersionPool)
     <> "Stable Pool".
Proof. by vm_compute. Qed.

(** ** Validation of the arguments *)

Lemma ofZ_42161 : Num.ofZ 42161 = arbitrum.
Proof. by vm_compute. Qed.

Lemma eqb_arbitrum (x : Num.number) :
  Num.eqb x (Num.ofZ 42161) = true <-> x = arbitrum.
Proof.
  rewrite ofZ_42161. split; [|by intros ->; vm_compute].
  unfold Num.eqb, SFeqb, arbitrum.
  destruct x as [s|s| |s m e]; cbn [SFcompare].
  - destruct s; discriminate.
  - destruct s; discriminate.
  - discriminate.
  - destruct s; [discriminate|].
    destruct (Z.compare_spec e (-37)) as [->| |]; try discriminate.
    destruct (Pos.compare_cont Eq m 5794563717332992) eqn:Hm;
      try discriminate.
    intros _. apply Pos.compare_eq in Hm. by rewrite Hm.
Qed.

Lemma keyCheck_isBlank (apiKey : string) :
  negb (truthy apiKey) || (String.length (Js.trim apiKey) =? 0)%nat
  = isBlank apiKey.
Proof.
  unfold isBlank. destruct (Js.allChars Js.isWhiteSpace apiKey) eqn:Hb.
  - apply trim_empty in Hb. rewrite Hb. apply orb_true_r.
  - assert (Js.trim apiKey <> "") as Ht.
    { intros Ht. apply trim_empty in Ht. congruence. }
    assert (apiKey <> "") as Hk by (intros ->; done).
    apply truthy_spec in Hk. rewrite Hk. simpl.
    destruct (Js.trim apiKey); done.
Qed.

Lemma prepareUrl_arbitrum (apiKey : string) :
  prepareUrl "42161" apiKey = inr (endpoint apiKey).
Proof. unfold prepareUrl, SUBGRAPH_URLS. by rewrite lookup_singleton_eq. Qed.

Lemma returnTags_unsupported (fuel : nat) (src : Source) (chainId apiKey : string) :
  isSupportedChain chainId = false ->
  returnTags fuel src chainId apiKey
  = Some {| outcome := inl (unsupportedChain chainId); requests := [] |}.
Proof.
  unfold isSupportedChain, returnTags. intros ->. simpl.
  by destruct (Num.isInteger (Num.ofString chainId)).
Qed.

Lemma returnTags_blank (fuel : nat) (src : Source) (chainId apiKey : string) :
  isSupportedChain chainId = true -> isBlank apiKey = true ->
  returnTags fuel src chainId apiKey
  = Some {| outcome := inl missingKey; requests := [] |}.
Proof.
  unfold isSupportedChain, returnTags. intros Hc Hb. rewrite Hc.
  rewrite keyCheck_isBlank, Hb. apply eqb_arbitrum in Hc. by rewrite Hc.
Qed.

(** Arguments that pass the validation start the loop at the endpoint of
    the key, with the chain written as ["42161"]. *)
Lemma returnTags_accepted (fuel : nat) (src : Source) (chainId apiKey : string) :
  isSupportedChain chainId = true -> isBlank apiKey = false ->
  returnTags fuel src chainId apiKey
  = whileLoop fuel src (endpoint apiKey) "42161" initialState.
Proof.
  unfold isSupportedChain, returnTags. intros Hc Hb. rewrite Hc.
  rewrite keyCheck_isBlank, Hb. apply eqb_arbitrum in Hc. rewrite Hc.
  change (Num.isInteger arbitrum) with true.
  change (Num.toString arbitrum) with "42161".
  simpl. by rewrite prepareUrl_arbitrum.
Qed.

(** C5: a chain other than the supported one, or a blank key, ends the call
    with a validation error that names the fault, before any request is
    sent. *)
Theorem invalid_arguments_send_nothing
    (fuel : nat) (src : Source) (chainId apiKey : string) :
  isSupportedChain chainId = false \/ isBlank apiKey = true ->
  exists e,
    returnTags fuel src chainId apiKey
    = Some {| outcome := inl e; requests := [] |}
    /\ (isSupportedChain chainId = false ->
        e = newError ("Unsupported Chain ID: " +:+ chainId +:+ "."))
    /\ (isSupportedChain chainId = true ->
        e = newError "Missing API key. A The Graph gateway API key is required.").
Proof.
  intros H. destruct (isSupportedChain chainId) eqn:Hc.
  - destruct H as [|Hb]; [done|]. exists missingKey.
    by rewrite returnTags_blank.
  - exists (unsupportedChain chainId). by rewrite returnTags_unsupported.
Qed.

Lemma invalid_arguments_send_nothing_witness :
  (isSupportedChain "1" = false \/ isBlank "key" = true)
  /\ exists e,
       returnTags 0 silentSource "1" "key"
       = Some {| outcome := inl e; requests := [] |}
       /\ (isSupportedChain "1" = false ->
           e = newError ("Unsupported Chain ID: " +:+ "1" +:+ "."))
       /\ (isSupportedChain "1" = true ->
           e = newError "Missing API key. A The Graph gateway API key is required.").
Proof.
  split; [left; by vm_compute|].
  apply (invalid_arguments_send_nothing 0 silentSource "1" "key").
  left. by vm_compute.
Defined.

(** ** One iteration of the loop *)

Lemma stalls_spec (st : LoopState) (next : string) :
  stalls st next = true <->
  next = "" \/ next = lastId st \/ next = prevLastId st.
Proof.
  unfold stalls. rewrite !orb_true_iff, negb_true_iff, !String.eqb_eq.
  unfold truthy. rewrite negb_false_iff, String.eqb_eq. tauto.
Qed.

Section Iteration.

Variable src : Source.
Variables url chain : string.

Lemma tryBlock_thrown (st : LoopState) (e : Thrown) :
  fetchData src (length (sent st)) url (lastId st) = inl e ->
  tryBlock src url chain st
  = ({| lastId := lastId st; prevLastId := prevLastId st;
        allTags := allTags st; seenPoolIds := seenPoolIds st;
        sent := sent st ++ [requestOf url st] |}, inl e).
Proof. intros H. unfold tryBlock. by rewrite H. Qed.

Lemma tryBlock_last_page (st : LoopState) (pools : list Pool) :
  fetchData src (length (sent st)) url (lastId st) = inr pools ->
  length pools <> pageSize ->
  tryBlock src url chain st = (withPage url chain st pools, inr false).
Proof.
  intros H Hlen. unfold tryBlock, withPage. rewrite H.
  destruct (filterNew (seenPoolIds st) pools) as [newPools seen'].
  by destruct (Nat.eqb_spec (length pools) pageSize).
Qed.

Lemma tryBlock_full_page (st : LoopState) (pools : list Pool) (p : Pool) :
  fetchData src (length (sent st)) url (lastId st) = inr pools ->
  length pools = pageSize ->
  last pools = Some p ->
  tryBlock src url chain st
  = if stalls st (id p)
    then (withPage url chain st pools, inl stallError)
    else (withCursor (id p) (withPage url chain st pools) (lastId st),
          inr true).
Proof.
  intros H Hlen Hlast. unfold tryBlock, withPage, withCursor, stalls.
  rewrite H.
  destruct (filterNew (seenPoolIds st) pools) as [newPools seen'].
  destruct (Nat.eqb_spec (length pools) pageSize); [|done].
  rewrite Hlast. simpl.
  by destruct (negb (truthy (id p)) || String.eqb (id p) (lastId st)
               || String.eqb (id p) (prevLastId st)).
Qed.

Lemma full_page_has_last (pools : list Pool) :
  length pools = pageSize -> exists p, last pools = Some p.
Proof.
  intros H. destruct (last pools) as [p|] eqn:Hl; [by exists p|].
  apply last_None in Hl. subst pools. done.
Qed.

Lemma whileLoop_stateAfter (k fuel : nat) (st st' : LoopState) :
  stateAfter src url chain k st = Some st' ->
  whileLoop (k + fuel) src url chain st = whileLoop fuel src url chain st'.
Proof.
  revert st. induction k as [|k IH]; intros st; simpl.
  - by intros [= ->].
  - destruct (tryBlock src url chain st) as [st1 [e|[|]]]; try done.
    apply IH.
Qed.

Lemma stateAfter_S (k : nat) (st st' : LoopState) :
  stateAfter src url chain k st = Some st' ->
  stateAfter src url chain (S k) st
  = match tryBlock src url chain st' with
    | (st'', inr true) => Some st''
    | _ => None
    end.
Proof.
  revert st. induction k as [|k IH]; intros st.
  - intros [= ->]. simpl.
    by destruct (tryBlock src url chain st') as [st1 [e|[|]]].
  - intros H. change (stateAfter src url chain (S (S k)) st) with
      (match tryBlock src url chain st with
       | (st1, inr true) => stateAfter src url chain (S k) st1
       | _ => None
       end).
    simpl in H. destruct (tryBlock src url chain st) as [st1 [e|[|]]]; try done.
    by apply IH.
Qed.

Lemma tryBlock_sent (st : LoopState) :
  sent (tryBlock src url chain st).1 = sent st ++ [requestOf url st].
Proof.
  unfold tryBlock.
  destruct (fetchData src (length (sent st)) url (lastId st)) as [e|pools];
    [done|].
  destruct (filterNew (seenPoolIds st) pools) as [newPools seen'].
  destruct (length pools =? pageSize)%nat; [|done].
  destruct (last pools) as [p|]; [|done].
  by destruct (negb (truthy (id p)) || String.eqb (id p) (lastId st)
               || String.eqb (id p) (prevLastId st)).
Qed.

Lemma tryBlock_continues (st st' : LoopState) :
  tryBlock src url chain st = (st', inr true) ->
  prevLastId st' = lastId st /\ lastId st' <> lastId st
  /\ lastId st' <> prevLastId st /\ lastId st' <> "".
Proof.
  unfold tryBlock.
  destruct (fetchData src (length (sent st)) url (lastId st)) as [e|pools];
    [done|].
  destruct (filterNew (seenPoolIds st) pools) as [newPools seen'].
  destruct (length pools =? pageSize)%nat; [|done].
  destruct (last pools) as [p|]; [|done].
  destruct (stalls st (id p)) eqn:Hs; unfold stalls in Hs; rewrite Hs; [done|].
  intros [= <-]. simpl.
  assert (~ (id p = "" \/ id p = lastId st \/ id p = prevLastId st)) as Hn.
  { rewrite <- stalls_spec. unfold stalls. by rewrite Hs. }
  tauto.
Qed.

(** What the two cursors of the guard are: after [k] iterations [k]
    requests were sent, [lastId] is the cursor of the request to come, and
    [prevLastId] is the cursor of the last request sent. *)
Lemma stateAfter_cursors (k : nat) (st : LoopState) :
  stateAfter src url chain k initialState = Some st ->
  length (sent st) = k
  /\ prevLastId st = default "" (last (cursor <$> sent st)).
Proof.
  revert st. induction k as [|k IH]; intros st.
  - by intros [= <-].
  - intros H.
    assert (exists st0, stateAfter src url chain k initialState = Some st0) as [st0 H0].
    { destruct (stateAfter src url chain k initialState) as [st0|] eqn:E; [by eexists|].
      clear IH. revert H E. generalize initialState.
      induction k as [|k IHk]; intros s; simpl; [done|].
      destruct (tryBlock src url chain s) as [s1 [e|[|]]]; try done.
      apply IHk. }
    rewrite (stateAfter_S _ _ _ H0) in H.
    destruct (tryBlock src url chain st0) as [st1 [e|[|]]] eqn:Ht; try done.
    injection H as ->. destruct (IH _ H0) as [Hlen _].
    pose proof (tryBlock_sent st0) as Hs. rewrite Ht in Hs. simpl in Hs.
    apply tryBlock_continues in Ht as (Hp & _). rewrite Hs, Hp. split.
    + rewrite length_app. simpl. lia.
    + rewrite fmap_app. simpl. by rewrite last_snoc.
Qed.

End Iteration.

(** ** Runs *)

Lemma iteration_fails_throws (src : Source) (url chain : string)
    (st : LoopState) (e : Thrown) :
  IterationFails src url st e ->
  exists st', tryBlock src url chain st = (st', inl e)
              /\ sent st' = sent st ++ [requestOf url st].
Proof.
  intros H.
  assert (fetchData src (length (sent st)) url (lastId st) = inl e
          \/ exists pools p,
               fetchData src (length (sent st)) url (lastId st) = inr pools
               /\ length pools = pageSize /\ last pools = Some p
               /\ stalls st (id p) = true /\ e = stallError) as [Hf|Hs].
  { unfold fetchData. fold (requestOf url st).
    destruct H as [e' Hr Ha|e' Hr Ha|status body Hr|status e' Hr
                  |status result ms Hr He|status result Hr He Hd
                  |pools p Hf Hl Hp Hs].
    - left. by rewrite Hr, Ha.
    - left. by rewrite Hr, Ha.
    - left. by rewrite Hr.
    - left. by rewrite Hr.
    - left. by rewrite Hr, He.
    - left. rewrite Hr, He. by destruct Hd as [-> | ->].
    - right. exists pools, p. by rewrite stalls_spec. }
  - eexists. split; [by apply tryBlock_thrown|done].
  - destruct Hs as (pools & p & Hf & Hl & Hp & Hs & ->).
    eexists. rewrite (tryBlock_full_page _ _ _ _ _ _ Hf Hl Hp), Hs.
    split; done.
Qed.


Section Run.

Variable src : Source.
Variables chainId apiKey : string.
Hypothesis chainOk : isSupportedChain chainId = true.
Hypothesis keyOk : isBlank apiKey = false.

Lemma run_from (k fuel : nat) (st : LoopState) :
  stateAfter src (endpoint apiKey) "42161" k initialState = Some st ->
  returnTags (k + fuel) src chainId apiKey
  = whileLoop fuel src (endpoint apiKey) "42161" st.
Proof.
  intros H. rewrite returnTags_accepted by done.
  by apply whileLoop_stateAfter.
Qed.

Lemma run_throws (k fuel : nat) (st st' : LoopState) (e : Thrown) :
  stateAfter src (endpoint apiKey) "42161" k initialState = Some st ->
  tryBlock src (endpoint apiKey) "42161" st = (st', inl e) ->
  returnTags (S k + fuel) src chainId apiKey
  = Some {| outcome := inl (catchBlock e); requests := sent st' |}.
Proof.
  intros H Ht. replace (S k + fuel)%nat with (k + S fuel)%nat by lia.
  rewrite (run_from _ _ _ H). simpl. by rewrite Ht.
Qed.

Lemma run_stalls (k fuel : nat) (st : LoopState) (pools : list Pool) (p : Pool) :
  stateAfter src (endpoint apiKey) "42161" k initialState = Some st ->
  fetchData src k (endpoint apiKey) (lastId st) = inr pools ->
  length pools = pageSize ->
  last pools = Some p ->
  stalls st (id p) = true ->
  returnTags (S k + fuel) src chainId apiKey
  = Some {| outcome := inl (catchBlock stallError);
            requests := sent st ++ [requestOf (endpoint apiKey) st] |}.
Proof.
  intros H Hf Hl Hp Hs.
  destruct (stateAfter_cursors _ _ _ _ _ H) as [Hk _]. rewrite <- Hk in Hf.
  pose proof (tryBlock_full_page src (endpoint apiKey) "42161" _ _ _ Hf Hl Hp)
    as Ht.
  rewrite Hs in Ht. by rewrite (run_throws _ _ _ _ _ H Ht).
Qed.

Lemma run_advances (k : nat) (st : LoopState) (pools : list Pool) (p : Pool) :
  stateAfter src (endpoint apiKey) "42161" k initialState = Some st ->
  fetchData src k (endpoint apiKey) (lastId st) = inr pools ->
  length pools = pageSize ->
  last pools = Some p ->
  stalls st (id p) = false ->
  stateAfter src (endpoint apiKey) "42161" (S k) initialState
  = Some (withCursor (id p) (withPage (endpoint apiKey) "42161" st pools)
            (lastId st)).
Proof.
  intros H Hf Hl Hp Hs.
  destruct (stateAfter_cursors _ _ _ _ _ H) as [Hk _]. rewrite <- Hk in Hf.
  rewrite (stateAfter_S _ _ _ _ _ _ H).
  by rewrite (tryBlock_full_page src _ _ _ _ _ Hf Hl Hp), Hs.
Qed.

End Run.

(** ** The stall guard *)

(** C3, as the code has it: when a page of exactly 1000 records ends with
    the cursor it was requested with, the run ends with the stall error in
    the wrapping of the [catch] block, and returns no list. *)
Theorem stall_on_full_page (src : Source) (chainId apiKey : string)
    (k : nat) (st : LoopState) (pools : list Pool) (p : Pool) :
  isSupportedChain chainId = true ->
  isBlank apiKey = false ->
  stateAfter src (endpoint apiKey) "42161" k initialState = Some st ->
  fetchData src k (endpoint apiKey) (lastId st) = inr pools ->
  length pools = pageSize ->
  last pools = Some p ->
  id p = lastId st ->
  forall fuel,
    returnTags (S k + fuel) src chainId apiKey
    = Some {| outcome :=
                inl (newError "Failed fetching data: Error: Pagination cursor did not advance; aborting to prevent an infinite loop.");
              requests := sent st ++ [requestOf (endpoint apiKey) st] |}.
Proof.
  intros Hc Hb Hk Hf Hl Hp Hid fuel.
  apply (run_stalls src chainId apiKey Hc Hb k fuel st pools p); try done.
  apply stalls_spec. auto.
Qed.

Lemma stall_on_full_page_witness :
  returnTags (1 + 0) stallingSource "42161" "key"
  = Some {| outcome :=
              inl (newError "Failed fetching data: Error: Pagination cursor did not advance; aborting to prevent an infinite loop.");
            requests := sent initialState
                        ++ [requestOf (endpoint "key") initialState] |}.
Proof.
  apply (stall_on_full_page stallingSource "42161" "key" 0 initialState
           (fullPage "0x0000000000000000000000000000000000000000")
           (samplePool "0x0000000000000000000000000000000000000000" "Weighted"));
    vm_compute; reflexivity.
Defined.

(** C3 as stated fails: a page of fewer than 1000 records that ends with
    the cursor of its request ends the run with its tags. *)
Lemma short_page_at_cursor_is_returned :
  fetchData shortStallingSource 0 (endpoint "key") (lastId initialState)
  = inr [samplePool (lastId initialState) "Stable"]
  /\ returnTags 1 shortStallingSource "42161" "key"
     = Some {| outcome :=
                 inr [poolToTag "42161"
                        (samplePool (lastId initialState) "Stable")];
               requests := [requestOf (endpoint "key") initialState] |}.
Proof. by vm_compute. Qed.

(** C4, as the code has it: after a page of 1000 records the identifier of
    its last record, before any record is dropped, is the candidate cursor.
    The run ends with the stall error exactly when the candidate is empty,
    or is the cursor of this request, or is the cursor of the request
    before it (the one sent two requests before the request the candidate
    is for); otherwise the candidate becomes the cursor and the run goes
    on.  The new cursor is not empty and differs from the cursor it
    replaces and from the one before that; nothing more is tested, so it
    need not come after them in the order of the identifiers. *)
Theorem cursor_guard (src : Source) (chainId apiKey : string)
    (k : nat) (st : LoopState) (pools : list Pool) :
  isSupportedChain chainId = true ->
  isBlank apiKey = false ->
  stateAfter src (endpoint apiKey) "42161" k initialState = Some st ->
  fetchData src k (endpoint apiKey) (lastId st) = inr pools ->
  length pools = pageSize ->
  exists p,
    last pools = Some p
    /\ length (sent st) = k
    /\ prevLastId st = default "" (last (cursor <$> sent st))
    /\ ((id p = "" \/ id p = lastId st \/ id p = prevLastId st) <->
        returnTags (S k) src chainId apiKey
        = Some {| outcome := inl (catchBlock stallError);
                  requests := sent st ++ [requestOf (endpoint apiKey) st] |})
    /\ ((id p = "" \/ id p = lastId st \/ id p = prevLastId st) ->
        forall fuel,
          returnTags (S k + fuel) src chainId apiKey
          = Some {| outcome := inl (catchBlock stallError);
                    requests := sent st ++ [requestOf (endpoint apiKey) st] |})
    /\ (~ (id p = "" \/ id p = lastId st \/ id p = prevLastId st) ->
        exists st',
          stateAfter src (endpoint apiKey) "42161" (S k) initialState = Some st'
          /\ lastId st' = id p
          /\ prevLastId st' = lastId st
          /\ lastId st' <> lastId st
          /\ lastId st' <> prevLastId st
          /\ lastId st' <> ""
          /\ forall fuel,
               returnTags (S k + fuel) src chainId apiKey
               = whileLoop fuel src (endpoint apiKey) "42161" st').
Proof.
  intros Hc Hb Hk Hf Hl.
  destruct (full_page_has_last _ Hl) as [p Hp]. exists p.
  destruct (stateAfter_cursors _ _ _ _ _ Hk) as [Hlen Hprev].
  split; [done|]. split; [done|]. split; [done|].
  destruct (stalls st (id p)) eqn:Hs.
  - pose proof (proj1 (stalls_spec _ _) Hs) as Hcond.
    pose proof (run_stalls src chainId apiKey Hc Hb k 0 st pools p
                  Hk Hf Hl Hp Hs) as Hrun.
    rewrite Nat.add_0_r in Hrun.
    split; [by split|]. split; [|done].
    intros _ fuel. by apply (run_stalls src chainId apiKey Hc Hb k fuel st pools p).
  - assert (~ (id p = "" \/ id p = lastId st \/ id p = prevLastId st)) as Hn.
    { rewrite <- stalls_spec. by rewrite Hs. }
    pose proof (run_advances src apiKey k st pools p
                  Hk Hf Hl Hp Hs) as Hadv.
    split; [|split; [done|]].
    + split; [done|]. intros Hrun.
      pose proof (run_from src chainId apiKey Hc Hb (S k) 0 _ Hadv) as Hr.
      rewrite Nat.add_0_r, Hrun in Hr. done.
    + intros _. eexists. split; [exact Hadv|]. simpl.
      split; [done|]. split; [done|]. split; [tauto|]. split; [tauto|].
      split; [tauto|].
      intros fuel. by apply (run_from src chainId apiKey Hc Hb (S k) fuel).
Qed.

Lemma cursor_guard_witness :
  exists p,
    last (fullPage "0x02") = Some p
    /\ length (sent initialState) = 0%nat
    /\ prevLastId initialState = default "" (last (cursor <$> sent initialState))
    /\ ((id p = "" \/ id p = lastId initialState \/ id p = prevLastId initialState) <->
        returnTags 1 advancingSource "42161" "key"
        = Some {| outcome := inl (catchBlock stallError);
                  requests := sent initialState
                              ++ [requestOf (endpoint "key") initialState] |})
    /\ ((id p = "" \/ id p = lastId initialState \/ id p = prevLastId initialState) ->
        forall fuel,
          returnTags (1 + fuel) advancingSource "42161" "key"
          = Some {| outcome := inl (catchBlock stallError);
                    requests := sent initialState
                                ++ [requestOf (endpoint "key") initialState] |})
    /\ (~ (id p = "" \/ id p = lastId initialState \/ id p = prevLastId initialState) ->
        exists st',
          stateAfter advancingSource (endpoint "key") "42161" 1 initialState
          = Some st'
          /\ lastId st' = id p
          /\ prevLastId st' = lastId initialState
          /\ lastId st' <> lastId initialState
          /\ lastId st' <> prevLastId initialState
          /\ lastId st' <> ""
          /\ forall fuel,
               returnTags (1 + fuel) advancingSource "42161" "key"
               = whileLoop fuel advancingSource (endpoint "key") "42161" st').
Proof.
  apply (cursor_guard advancingSource "42161" "key" 0 initialState
           (fullPage "0x02")); vm_compute; reflexivity.
Defined.

(** C4 as stated fails: the cursor need not advance.  Full pages that end
    with ["0x0c"], then ["0x0b"], then ["0x0a"] pass the guard, each cursor
    coming before the one it replaces in the order of the identifiers, and
    the run returns its tags. *)
Lemma cursor_may_move_back :
  returnTags 4 descendingSource "42161" "key"
  = Some {| outcome :=
              inr (poolToTag "42161"
                     <$> [samplePool "0x01" "Stable";
                          samplePool "0x0c" "Weighted";
                          samplePool "0x0b" "Weighted";
                          samplePool "0x0a" "Weighted"]);
            requests :=
              request (endpoint "key")
                <$> [lastId initialState; "0x0c"; "0x0b"; "0x0a"] |}
  /\ strict String.le "0x0b" "0x0c"
  /\ strict String.le "0x0a" "0x0b".
Proof.
  split; [by vm_compute|].
  split; (split; [by vm_compute | by vm_compute]).
Qed.

(** ** Failures *)

(** C9: when an iteration fails, whether the request is rejected or timed
    out, the status is not a success, the body is malformed or carries
    errors, the data is absent, or the cursor stalls, the run ends with a
    new error from the [catch] block, which wraps the text of an error and
    names the fetch otherwise; the outcome holds no list, so the tags of
    the iterations before are not returned. *)
Theorem failure_returns_no_tags (src : Source) (chainId apiKey : string)
    (k : nat) (st : LoopState) (e : Thrown) :
  isSupportedChain chainId = true ->
  isBlank apiKey = false ->
  stateAfter src (endpoint apiKey) "42161" k initialState = Some st ->
  IterationFails src (endpoint apiKey) st e ->
  forall fuel,
    returnTags (S k + fuel) src chainId apiKey
    = Some {| outcome := inl (catchBlock e);
              requests := sent st ++ [requestOf (endpoint apiKey) st] |}
    /\ catchBlock e
       = newError (if isError e
                   then "Failed fetching data: " +:+ errorToString e
                   else "An unknown error occurred during fetch operation.").
Proof.
  intros Hc Hb Hk Hfail fuel.
  destruct (iteration_fails_throws src (endpoint apiKey) "42161" st e Hfail)
    as (st' & Ht & Hs).
  rewrite (run_throws src chainId apiKey Hc Hb k fuel st st' e Hk Ht), Hs.
  split; [done|]. unfold catchBlock. by destruct (isError e).
Qed.

Lemma failure_returns_no_tags_witness :
  returnTags (2 + 0) advancingSource "42161" "key"
  = Some {| outcome := inl (catchBlock (newError ("HTTP error: " +:+ Num.toString (Num.ofZ 503))));
            requests :=
              sent (withCursor "0x02"
                      (withPage (endpoint "key") "42161" initialState
                         (fullPage "0x02"))
                      (lastId initialState))
              ++ [requestOf (endpoint "key")
                    (withCursor "0x02"
                       (withPage (endpoint "key") "42161" initialState
                          (fullPage "0x02"))
                       (lastId initialState))] |}
  /\ catchBlock (newError ("HTTP error: " +:+ Num.toString (Num.ofZ 503)))
     = newError (if isError (newError ("HTTP error: " +:+ Num.toString (Num.ofZ 503)))
                 then "Failed fetching data: "
                      +:+ errorToString (newError ("HTTP error: " +:+ Num.toString (Num.ofZ 503)))
                 else "An unknown error occurred during fetch operation.").
Proof.
  apply (failure_returns_no_tags advancingSource "42161" "key" 1
           (withCursor "0x02"
              (withPage (endpoint "key") "42161" initialState (fullPage "0x02"))
              (lastId initialState))).
  - vm_compute; reflexivity.
  - vm_compute; reflexivity.
  - vm_compute; reflexivity.
  - apply (FailsStatus _ _ _ 503 (inl NonError)). vm_compute; reflexivity.
Defined.

(** ** Deduplication *)

Lemma filterNew_app (seen : gset string) (a b : list Pool) :
  filterNew seen (a ++ b)
  = ((filterNew seen a).1 ++ (filterNew (filterNew seen a).2 b).1,
     (filterNew (filterNew seen a).2 b).2).
Proof.
  revert seen. induction a as [|p a IH]; intros seen; simpl.
  - by destruct (filterNew seen b).
  - case_decide; [apply IH|].
    rewrite IH. by destruct (filterNew ({[id p]} ∪ seen) a).
Qed.

(** The set of the source and the list of the specification keep the same
    records. *)
Lemma filterNew_firstOccurrences (seen : gset string) (earlier : list string)
    (l : list Pool) :
  (forall x, x ∈ seen <-> x ∈ earlier) ->
  (filterNew seen l).1 = firstOccurrences earlier l.
Proof.
  revert seen earlier. induction l as [|p l IH]; intros seen earlier H; simpl;
    [done|].
  destruct (decide (id p ∈ seen)) as [Hin|Hin];
    destruct (decide (id p ∈ earlier)) as [Hin'|Hin'];
    try (exfalso; apply H in Hin; done);
    try (exfalso; apply H in Hin'; done).
  - by apply IH.
  - specialize (IH ({[id p]} ∪ seen) (id p :: earlier)).
    destruct (filterNew ({[id p]} ∪ seen) l) as [kept seen'] eqn:E.
    simpl in *. f_equal. apply IH. intros x. rewrite elem_of_cons.
    rewrite elem_of_union, elem_of_singleton, H. done.
Qed.

Lemma filterNew_deduplicate (l : list Pool) :
  (filterNew ∅ l).1 = deduplicate l.
Proof.
  apply filterNew_firstOccurrences. intros x.
  split; intros H; [by apply elem_of_empty in H | by apply elem_of_nil in H].
Qed.

Lemma firstOccurrences_snoc (earlier : list string) (l : list Pool) (p : Pool) :
  firstOccurrences earlier (l ++ [p])
  = firstOccurrences earlier l
    ++ (if decide (id p ∈ earlier ++ (id <$> l)) then [] else [p]).
Proof.
  revert earlier. induction l as [|q l IH]; intros earlier.
  - simpl. rewrite app_nil_r. by destruct (decide (id p ∈ earlier)).
  - rewrite fmap_cons, <- app_comm_cons. cbn [firstOccurrences].
    destruct (decide (id q ∈ earlier)) as [Hq|Hq]; rewrite IH.
    + f_equal.
      assert (id p ∈ earlier ++ (id <$> l)
              <-> id p ∈ earlier ++ id q :: (id <$> l)) as Hsame.
      { repeat (rewrite elem_of_app || rewrite elem_of_cons).
        split; [tauto|]. intros [?|[->|?]]; auto. }
      destruct (decide (id p ∈ earlier ++ (id <$> l)));
        destruct (decide (id p ∈ earlier ++ id q :: (id <$> l)));
        first [done | tauto].
    + assert (id p ∈ (id q :: earlier) ++ (id <$> l)
              <-> id p ∈ earlier ++ id q :: (id <$> l)) as Hperm.
      { repeat (rewrite elem_of_app || rewrite elem_of_cons). tauto. }
      destruct (decide (id p ∈ (id q :: earlier) ++ (id <$> l)));
        destruct (decide (id p ∈ earlier ++ id q :: (id <$> l)));
        first [done | tauto].
Qed.

(** A record is kept exactly when its identifier is new. *)
Lemma deduplicate_snoc (l : list Pool) (p : Pool) :
  deduplicate (l ++ [p])
  = deduplicate l ++ (if decide (id p ∈ id <$> l) then [] else [p]).
Proof. apply firstOccurrences_snoc. Qed.

Lemma firstOccurrences_NoDup (earlier : list string) (l : list Pool) :
  NoDup (id <$> firstOccurrences earlier l)
  /\ forall x, x ∈ id <$> firstOccurrences earlier l -> x ∉ earlier.
Proof.
  revert earlier. induction l as [|p l IH]; intros earlier; simpl.
  - split; [constructor|]. intros x Hx. by apply elem_of_nil in Hx.
  - destruct (decide (id p ∈ earlier)); [apply IH|].
    destruct (IH (id p :: earlier)) as [Hnd Hout]. simpl. split.
    + constructor; [|done]. intros Hin. apply Hout in Hin.
      apply Hin. by left.
    + intros x [->|Hin]%elem_of_cons; [done|]. apply Hout in Hin.
      intros Hx. apply Hin. by right.
Qed.

(** No identifier is kept twice, and the order of the records is kept. *)
Lemma deduplicate_NoDup (l : list Pool) : NoDup (id <$> deduplicate l).
Proof. apply firstOccurrences_NoDup. Qed.

Lemma deduplicate_sublist (l : list Pool) : deduplicate l `sublist_of` l.
Proof.
  unfold deduplicate. generalize (@nil string).
  induction l as [|p l IH]; intros earlier; simpl; [done|].
  destruct (decide (id p ∈ earlier)).
  - by apply sublist_cons.
  - by apply sublist_skip.
Qed.

(** ** A run over pages *)

Section Pages.

Variable src : Source.
Variables url chain : string.

Lemma whileLoop_pages (full : list (list Pool)) (final : list Pool) :
  forall (st : LoopState) (fuel : nat),
    Forall (fun page => length page = pageSize) full ->
    length final <> pageSize ->
    serves src url (length (sent st)) (lastId st) (full ++ [final]) ->
    advances (prevLastId st) (lastId st) full ->
    whileLoop (S (length full) + fuel) src url chain st
    = Some {| outcome :=
                inr (allTags st
                     ++ transformPoolsToTags chain
                          (filterNew (seenPoolIds st)
                             (concat (full ++ [final]))).1);
              requests :=
                sent st
                ++ (request url <$> cursorsFrom (lastId st) (full ++ [final])) |}.
Proof.
  induction full as [|page full IH]; intros st fuel Hfull Hfinal Hserv Hadv.
  - destruct Hserv as [Hf _]. simpl.
    rewrite (tryBlock_last_page _ _ _ _ _ Hf Hfinal). simpl.
    by rewrite app_nil_r.
  - destruct Hserv as [Hf Hserv]. apply Forall_cons in Hfull as [Hlen Hfull].
    destruct Hadv as (Hne & Hcur & Hprev & Hadv).
    destruct (full_page_has_last _ Hlen) as [p Hp].
    assert (lastIdOf page = id p) as Hid by (unfold lastIdOf; by rewrite Hp).
    rewrite Hid in *.
    assert (stalls st (id p) = false) as Hs.
    { destruct (stalls st (id p)) eqn:Hs; [|done].
      apply stalls_spec in Hs. tauto. }
    change (whileLoop (S (length (page :: full)) + fuel) src url chain st)
      with (match tryBlock src url chain st with
            | (st', inl e) =>
                Some {| outcome := inl (catchBlock e); requests := sent st' |}
            | (st', inr true) =>
                whileLoop (S (length full) + fuel) src url chain st'
            | (st', inr false) =>
                Some {| outcome := inr (allTags st'); requests := sent st' |}
            end).
    rewrite (tryBlock_full_page _ _ _ _ _ _ Hf Hlen Hp), Hs.
    rewrite IH; try done.
    + simpl. rewrite filterNew_app. simpl.
      rewrite transformPoolsToTags_app, <- !app_assoc. by rewrite Hid.
    + simpl. rewrite length_app. simpl.
      by replace (length (sent st) + 1)%nat with (S (length (sent st))) by lia.
Qed.

Lemma whileLoop_pages_unfinished (full : list (list Pool)) :
  forall (st : LoopState) (fuel : nat),
    (fuel <= length full)%nat ->
    Forall (fun page => length page = pageSize) full ->
    serves src url (length (sent st)) (lastId st) full ->
    advances (prevLastId st) (lastId st) full ->
    whileLoop fuel src url chain st = None.
Proof.
  induction full as [|page full IH]; intros st fuel Hle Hfull Hserv Hadv.
  - simpl in Hle. by replace fuel with 0%nat by lia.
  - destruct fuel as [|fuel]; [done|]. simpl in Hle.
    destruct Hserv as [Hf Hserv]. apply Forall_cons in Hfull as [Hlen Hfull].
    destruct Hadv as (Hne & Hcur & Hprev & Hadv).
    destruct (full_page_has_last _ Hlen) as [p Hp].
    assert (lastIdOf page = id p) as Hid by (unfold lastIdOf; by rewrite Hp).
    rewrite Hid in *.
    assert (stalls st (id p) = false) as Hs.
    { destruct (stalls st (id p)) eqn:Hs; [|done].
      apply stalls_spec in Hs. tauto. }
    simpl. rewrite (tryBlock_full_page _ _ _ _ _ _ Hf Hlen Hp), Hs.
    apply IH; try done; [lia|].
    simpl. rewrite length_app. simpl.
    by replace (length (sent st) + 1)%nat with (S (length (sent st))) by lia.
Qed.

Lemma serves_app (i : nat) (c : string) (a b : list (list Pool)) :
  serves src url i c (a ++ b) -> serves src url i c a.
Proof.
  revert i c. induction a as [|page a IH]; intros i c; simpl; [done|].
  intros [Hf H]. split; [done|]. by apply IH.
Qed.

End Pages.

(** C1, as the code has it: when the source answers with pages of exactly
    1000 records and then a page of fewer, and no full page ends with an
    empty identifier, with the cursor of its request or with the cursor
    before that, the run ends with the tags of the valid records among the
    first occurrences of each identifier, one tag for each, in the order of
    the pages; it sends one request for each page, the last for the short
    page, and does not end before. *)
Theorem all_pages_collected (src : Source) (chainId apiKey : string)
    (full : list (list Pool)) (final : list Pool) (fuel : nat) :
  isSupportedChain chainId = true ->
  isBlank apiKey = false ->
  Forall (fun page => length page = pageSize) full ->
  (length final < pageSize)%nat ->
  serves src (endpoint apiKey) 0 (lastId initialState) (full ++ [final]) ->
  advances "" (lastId initialState) full ->
  returnTags fuel src chainId apiKey
  = (if decide (length full < fuel)%nat
     then Some {| outcome :=
                    inr (poolToTag "42161"
                           <$> filter (fun p => poolTypeInvalid p = false)
                                 (deduplicate (concat (full ++ [final]))));
                  requests :=
                    request (endpoint apiKey)
                      <$> cursorsFrom (lastId initialState) (full ++ [final]) |}
     else None)
  /\ NoDup (id <$> deduplicate (concat (full ++ [final])))
  /\ deduplicate (concat (full ++ [final])) `sublist_of` concat (full ++ [final]).
Proof.
  intros Hc Hb Hfull Hfinal Hserv Hadv.
  split; [|split; [apply deduplicate_NoDup | apply deduplicate_sublist]].
  rewrite returnTags_accepted by done.
  destruct (decide (length full < fuel)%nat) as [Hlt|Hge].
  - replace fuel with (S (length full) + (fuel - S (length full)))%nat by lia.
    rewrite (whileLoop_pages src (endpoint apiKey) "42161" full final);
      try done; [|lia].
    simpl. by rewrite filterNew_deduplicate.
  - apply (whileLoop_pages_unfinished src (endpoint apiKey) "42161" full);
      try done; [lia|].
    by apply serves_app in Hserv.
Qed.

Lemma all_pages_collected_witness :
  returnTags 2 twoPageSource "42161" "key"
  = (if decide (length [fullPage "0x02"] < 2)%nat
     then Some {| outcome :=
                    inr (poolToTag "42161"
                           <$> filter (fun p => poolTypeInvalid p = false)
                                 (deduplicate
                                    (concat ([fullPage "0x02"]
                                             ++ [[samplePool "0x02" "Stable";
                                                  samplePool "0x03" "GyroE";
                                                  samplePool "0x04" ""]]))));
                  requests :=
                    request (endpoint "key")
                      <$> cursorsFrom (lastId initialState)
                            ([fullPage "0x02"]
                             ++ [[samplePool "0x02" "Stable";
                                  samplePool "0x03" "GyroE";
                                  samplePool "0x04" ""]]) |}
     else None)
  /\ NoDup (id <$> deduplicate
                     (concat ([fullPage "0x02"]
                              ++ [[samplePool "0x02" "Stable";
                                   samplePool "0x03" "GyroE";
                                   samplePool "0x04" ""]])))
  /\ deduplicate (concat ([fullPage "0x02"]
                          ++ [[samplePool "0x02" "Stable";
                               samplePool "0x03" "GyroE";
                               samplePool "0x04" ""]]))
     `sublist_of` concat ([fullPage "0x02"]
                          ++ [[samplePool "0x02" "Stable";
                               samplePool "0x03" "GyroE";
                               samplePool "0x04" ""]]).
Proof.
  apply (all_pages_collected twoPageSource "42161" "key" [fullPage "0x02"]
           [samplePool "0x02" "Stable"; samplePool "0x03" "GyroE";
            samplePool "0x04" ""] 2).
  - vm_compute; reflexivity.
  - vm_compute; reflexivity.
  - constructor; [vm_compute; reflexivity | constructor].
  - vm_compute; lia.
  - vm_compute; repeat split.
  - vm_compute; repeat split; discriminate.
Defined.

(** C1 as stated fails: a page of exactly 1000 records and then a shorter
    one, where the full page ends with the cursor of its request, end the
    run with the stall error and no tags. *)
Lemma full_page_ending_at_cursor_aborts :
  Forall (fun page => length page = pageSize)
    [fullPage "0x0000000000000000000000000000000000000000"]
  /\ (length [samplePool "0x05" "Stable"] < pageSize)%nat
  /\ serves stallThenFinalSource (endpoint "key") 0 (lastId initialState)
       ([fullPage "0x0000000000000000000000000000000000000000"]
        ++ [[samplePool "0x05" "Stable"]])
  /\ returnTags 2 stallThenFinalSource "42161" "key"
     = Some {| outcome := inl (catchBlock stallError);
               requests := [request (endpoint "key") (lastId initialState)] |}.
Proof.
  split; [constructor; [by vm_compute | constructor]|].
  split; [vm_compute; lia|].
  split; [vm_compute; repeat split | by vm_compute].
Qed.

(** ** The chain identifier *)

Section Tags.

Variable src : Source.
Variables url chain : string.
Variable P : ContractTag -> Prop.
Hypothesis P_tag : forall pool, P (poolToTag chain pool).

Lemma transformPoolsToTags_Forall (l : list Pool) :
  Forall P (transformPoolsToTags chain l).
Proof.
  unfold transformPoolsToTags.
  induction (filter (fun pool => poolTypeInvalid pool = false) l)
    as [|pool kept IH]; simpl; constructor; [apply P_tag | done].
Qed.

Lemma tryBlock_Forall (st : LoopState) :
  Forall P (allTags st) -> Forall P (allTags (tryBlock src url chain st).1).
Proof.
  intros H. unfold tryBlock.
  destruct (fetchData src (length (sent st)) url (lastId st)) as [e|pools];
    [done|].
  destruct (filterNew (seenPoolIds st) pools) as [newPools seen'].
  assert (Forall P (allTags st ++ transformPoolsToTags chain newPools)) as H'.
  { apply Forall_app. split; [done | apply transformPoolsToTags_Forall]. }
  destruct (length pools =? pageSize)%nat; [|done].
  destruct (last pools) as [p|]; [|done].
  by destruct (negb (truthy (id p)) || String.eqb (id p) (lastId st)
               || String.eqb (id p) (prevLastId st)).
Qed.

Lemma whileLoop_Forall (fuel : nat) :
  forall (st : LoopState) (tags : list ContractTag) (reqs : list Request),
    Forall P (allTags st) ->
    whileLoop fuel src url chain st
    = Some {| outcome := inr tags; requests := reqs |} ->
    Forall P tags.
Proof.
  induction fuel as [|fuel IH]; intros st tags reqs Hst; simpl; [done|].
  pose proof (tryBlock_Forall st Hst) as Hnext.
  destruct (tryBlock src url chain st) as [st' [e|[|]]]; simpl in Hnext.
  - done.
  - by apply IH.
  - by intros [= <- _].
Qed.

End Tags.

(** C10: the chain is accepted by its numeric value: a string is let
    through to the loop exactly when it reads as the number 42161, as
    ["0xA4B1"], [" 42161 "] and ["42161.0"] do, and is refused as
    unsupported otherwise; every address of a run that was let through is
    written with ["eip155:42161:"], whatever the spelling was. *)
Theorem chain_accepted_by_value (fuel : nat) (src : Source)
    (chainId apiKey : string) :
  isBlank apiKey = false ->
  (Num.eqb (Num.ofString chainId) (Num.ofZ 42161) = true ->
   returnTags fuel src chainId apiKey
   = whileLoop fuel src (endpoint apiKey) "42161" initialState)
  /\ (Num.eqb (Num.ofString chainId) (Num.ofZ 42161) = false ->
      returnTags fuel src chainId apiKey
      = Some {| outcome :=
                  inl (newError ("Unsupported Chain ID: " +:+ chainId +:+ "."));
                requests := [] |})
  /\ (forall tags reqs,
        returnTags fuel src chainId apiKey
        = Some {| outcome := inr tags; requests := reqs |} ->
        Forall (fun t => exists pool,
                    ContractAddress t = "eip155:42161:" +:+ address pool)
          tags)
  /\ Num.eqb (Num.ofString "0xA4B1") (Num.ofZ 42161) = true
  /\ Num.eqb (Num.ofString " 42161 ") (Num.ofZ 42161) = true
  /\ Num.eqb (Num.ofString "42161.0") (Num.ofZ 42161) = true
  /\ Num.eqb (Num.ofString "42161") (Num.ofZ 42161) = true.
Proof.
  intros Hb. split; [|split; [|split]].
  - intros Hc. by apply returnTags_accepted.
  - intros Hc. by apply returnTags_unsupported.
  - intros tags reqs Hrun.
    destruct (isSupportedChain chainId) eqn:Hc.
    + rewrite returnTags_accepted in Hrun by done.
      eapply (whileLoop_Forall src (endpoint apiKey) "42161"); [| |exact Hrun].
      * intros pool. by exists pool.
      * constructor.
    + by rewrite returnTags_unsupported in Hrun.
  - by vm_compute.
Qed.

Lemma chain_accepted_by_value_witness :
  (Num.eqb (Num.ofString "0xA4B1") (Num.ofZ 42161) = true ->
   returnTags 2 twoPageSource "0xA4B1" "key"
   = whileLoop 2 twoPageSource (endpoint "key") "42161" initialState)
  /\ (Num.eqb (Num.ofString "0xA4B1") (Num.ofZ 42161) = false ->
      returnTags 2 twoPageSource "0xA4B1" "key"
      = Some {| outcome :=
                  inl (newError ("Unsupported Chain ID: " +:+ "0xA4B1" +:+ "."));
                requests := [] |})
  /\ (forall tags reqs,
        returnTags 2 twoPageSource "0xA4B1" "key"
        = Some {| outcome := inr tags; requests := reqs |} ->
        Forall (fun t => exists pool,
                    ContractAddress t = "eip155:42161:" +:+ address pool)
          tags)
  /\ Num.eqb (Num.ofString "0xA4B1") (Num.ofZ 42161) = true
  /\ Num.eqb (Num.ofString " 42161 ") (Num.ofZ 42161) = true
  /\ Num.eqb (Num.ofString "42161.0") (Num.ofZ 42161) = true
  /\ Num.eqb (Num.ofString "42161") (Num.ofZ 42161) = true.
Proof.
  apply (chain_accepted_by_value 2 twoPageSource "0xA4B1" "key").
  vm_compute; reflexivity.
Defined.

(** ** Numeric abbreviation *)


Lemma isZero_isDigit (c : ascii) : isZero c = true -> Js.isDigit c = true.
Proof. unfold isZero. by intros ->%Ascii.eqb_eq. Qed.

Lemma isDigit_chr (d : Z) : 0 <= d < 10 -> Js.isDigit (Js.chr (48 + d)) = true.
Proof.
  apply (allBelow_spec (fun d => Js.isDigit (Js.chr (48 + d))) 10).
  by vm_compute.
Qed.

Lemma digitsAux_allDigits (fuel : nat) (n : Z) (acc : string) :
  Js.allChars Js.isDigit acc = true ->
  Js.allChars Js.isDigit (Js.digitsAux fuel n acc) = true.
Proof.
  revert n acc. induction fuel as [|fuel IH]; intros n acc Hacc; simpl; [done|].
  assert (Js.allChars Js.isDigit (String (Js.chr (48 + n mod 10)) acc) = true)
    as Hacc'.
  { simpl. rewrite isDigit_chr, Hacc; [done|]. by apply Z.mod_pos_bound. }
  destruct (n <? 10); [done | by apply IH].
Qed.

Lemma decimal_allDigits (n : Z) : Js.allChars Js.isDigit (Js.decimal n) = true.
Proof. by apply digitsAux_allDigits. Qed.

Lemma allChars_repeatChar (p : ascii -> bool) (c : ascii) (n : nat) :
  p c = true -> Js.allChars p (Js.repeatChar c n) = true.
Proof. intros Hc. induction n as [|n IH]; simpl; [done | by rewrite Hc]. Qed.






Lemma dropTrailingZeros_allZero (f : string) :
  Js.allChars isZero f = true -> dropTrailingZeros f = "".
Proof. destruct f as [|c f]; simpl; [done|]. by intros ->. Qed.

Lemma dropTrailingZeros_empty (f : string) :
  dropTrailingZeros f = "" -> Js.allChars isZero f = true.
Proof.
  destruct f as [|c f]; [done|]. cbn [dropTrailingZeros].
  by destruct (Js.allChars isZero (String c f)).
Qed.





(** ** Markup in the tag *)

(** C2 fails in the code: a parameter that does not read as a finite number
    is copied into the note as it is, markup included; the record is not
    skipped, since only its kind is tested. *)
Theorem note_carries_markup_of_parameter :
  poolTypeInvalid markupParameterPool = false
  /\ abbreviateNumberString "<b>" = "<b>"
  /\ transformPoolsToTags "42161" [markupParameterPool]
     = [{| ContractAddress := "eip155:42161:0xabc";
           PublicNameTag := "Stable Pool v1";
           ProjectName := "Balancer v3";
           UIWebsiteLink := "https://balancer.fi";
           PublicNote := "A Balancer v3 'Stable' pool. Params: amp=<b>." |}]
  /\ containsHtmlOrMarkdown
       (PublicNote (poolToTag "42161" markupParameterPool)) = true.
Proof. by vm_compute. Qed.

Lemma closesTag_plain (seen : bool) (s : string) :
  Js.allChars notGt s = true -> closesTag seen s = false.
Proof.
  revert seen. induction s as [|c s IH]; intros seen; simpl; [done|].
  intros [Hc Hs]%andb_prop. unfold notGt in Hc. apply negb_true_iff in Hc.
  rewrite Hc. by apply IH.
Qed.

Lemma closesTag_app_plain (seen : bool) (a b : string) :
  Js.allChars notGt b = true -> closesTag seen (a +:+ b) = closesTag seen a.
Proof.
  intros Hb. revert seen. induction a as [|c a IH]; intros seen.
  - rewrite string_app_empty_l. by apply closesTag_plain.
  - rewrite string_app_cons. simpl. by destruct (c =? ">")%char.
Qed.

Lemma containsHtmlOrMarkdown_plain (s : string) :
  Js.allChars notGt s = true -> containsHtmlOrMarkdown s = false.
Proof.
  induction s as [|c s IH]; simpl; [done|].
  intros [Hc Hs]%andb_prop. rewrite (closesTag_plain _ _ Hs), IH by done.
  by rewrite andb_false_r.
Qed.

(** Text without [">"] that follows adds no markup. *)
Lemma containsHtmlOrMarkdown_app_plain (a b : string) :
  Js.allChars notGt b = true ->
  containsHtmlOrMarkdown (a +:+ b) = containsHtmlOrMarkdown a.
Proof.
  intros Hb. induction a as [|c a IH].
  - rewrite string_app_empty_l. by apply containsHtmlOrMarkdown_plain.
  - rewrite string_app_cons. simpl. by rewrite closesTag_app_plain, IH.
Qed.

Lemma closesTag_prefix (seen : bool) (n : nat) (s : string) :
  closesTag seen (Js.prefix n s) = true -> closesTag seen s = true.
Proof.
  revert seen s. induction n as [|n IH]; intros seen [|c s]; simpl; try done.
  destruct (c =? ">")%char; [done | apply IH].
Qed.

(** Cutting a text short adds no markup. *)
Lemma containsHtmlOrMarkdown_prefix (n : nat) (s : string) :
  containsHtmlOrMarkdown s = false ->
  containsHtmlOrMarkdown (Js.prefix n s) = false.
Proof.
  revert s. induction n as [|n IH]; intros [|c s]; simpl; try done.
  intros [Hc Hs]%orb_false_elim. rewrite (IH _ Hs), orb_false_r.
  destruct (c =? "<")%char; [|done]. simpl in *.
  destruct (closesTag false (Js.prefix n s)) eqn:Ht; [|done].
  apply closesTag_prefix in Ht. congruence.
Qed.

Lemma alnum_not_bracket (c : ascii) :
  Js.isLower c || Js.isDigit c || Js.isUpper c = true ->
  (c =? ">")%char = false /\ (c =? "<")%char = false.
Proof.
  intros H. split.
  - destruct (Ascii.eqb_spec c ">"%char) as [->|]; [by vm_compute in H | done].
  - destruct (Ascii.eqb_spec c "<"%char) as [->|]; [by vm_compute in H | done].
Qed.

Lemma camelCaseToSpaced_step (c1 c2 : ascii) (rest : string) :
  camelCaseToSpaced (String c1 (String c2 rest))
  = if (Js.isLower c1 || Js.isDigit c1) && Js.isUpper c2
    then String c1 (String " " (String c2 (camelCaseToSpaced rest)))
    else String c1 (camelCaseToSpaced (String c2 rest)).
Proof. reflexivity. Qed.

Lemma camelCaseToSpaced_markup_aux (n : nat) :
  forall s, (String.length s <= n)%nat ->
    (forall seen, closesTag seen (camelCaseToSpaced s) = closesTag seen s)
    /\ containsHtmlOrMarkdown (camelCaseToSpaced s) = containsHtmlOrMarkdown s.
Proof.
  induction n as [|n IH]; intros s Hlen.
  - destruct s; [done | simpl in Hlen; lia].
  - destruct s as [|c1 [|c2 rest]]; [done | done |].
    simpl in Hlen. rewrite camelCaseToSpaced_step.
    destruct ((Js.isLower c1 || Js.isDigit c1) && Js.isUpper c2) eqn:Hm.
    + apply andb_prop in Hm as [H1 H2].
      destruct (alnum_not_bracket c1) as [Hg1 Hl1]; [by rewrite H1|].
      destruct (alnum_not_bracket c2) as [Hg2 Hl2];
        [by rewrite H2, orb_true_r|].
      destruct (IH rest) as [IHc IHh]; [lia|].
      split; [intros seen|].
      * change (closesTag seen
                  (String c1 (String " " (String c2 (camelCaseToSpaced rest)))))
          with (if (c1 =? ">")%char then seen
                else if (c2 =? ">")%char then true
                     else closesTag true (camelCaseToSpaced rest)).
        change (closesTag seen (String c1 (String c2 rest)))
          with (if (c1 =? ">")%char then seen
                else if (c2 =? ">")%char then true
                     else closesTag true rest).
        rewrite Hg1, Hg2. apply IHc.
      * change (containsHtmlOrMarkdown
                  (String c1 (String " " (String c2 (camelCaseToSpaced rest)))))
          with (((c1 =? "<")%char
                 && closesTag false
                      (String " " (String c2 (camelCaseToSpaced rest))))
                || (((c2 =? "<")%char
                     && closesTag false (camelCaseToSpaced rest))
                    || containsHtmlOrMarkdown (camelCaseToSpaced rest))).
        change (containsHtmlOrMarkdown (String c1 (String c2 rest)))
          with (((c1 =? "<")%char && closesTag false (String c2 rest))
                || (((c2 =? "<")%char && closesTag false rest)
                    || containsHtmlOrMarkdown rest)).
        rewrite Hl1, Hl2. cbn [andb orb]. apply IHh.
    + destruct (IH (String c2 rest)) as [IHc IHh]; [simpl; lia|].
      split; [intros seen|].
      * change (closesTag seen (String c1 (camelCaseToSpaced (String c2 rest))))
          with (if (c1 =? ">")%char then seen
                else closesTag true (camelCaseToSpaced (String c2 rest))).
        change (closesTag seen (String c1 (String c2 rest)))
          with (if (c1 =? ">")%char then seen
                else closesTag true (String c2 rest)).
        by rewrite IHc.
      * change (containsHtmlOrMarkdown
                  (String c1 (camelCaseToSpaced (String c2 rest))))
          with (((c1 =? "<")%char
                 && closesTag false (camelCaseToSpaced (String c2 rest)))
                || containsHtmlOrMarkdown (camelCaseToSpaced (String c2 rest))).
        change (containsHtmlOrMarkdown (String c1 (String c2 rest)))
          with (((c1 =? "<")%char && closesTag false (String c2 rest))
                || containsHtmlOrMarkdown (String c2 rest)).
        by rewrite IHc, IHh.
Qed.

(** The spaces put into the kind add no markup. *)
Lemma camelCaseToSpaced_markup (s : string) :
  containsHtmlOrMarkdown (camelCaseToSpaced s) = containsHtmlOrMarkdown s.
Proof. by apply (camelCaseToSpaced_markup_aux (String.length s)). Qed.

Lemma isNumberChar_notGt (c : ascii) : isNumberChar c = true -> notGt c = true.
Proof.
  unfold notGt. destruct (Ascii.eqb_spec c ">"%char) as [->|]; [|done].
  by vm_compute.
Qed.

Lemma isDigit_isNumberChar (c : ascii) :
  Js.isDigit c = true -> isNumberChar c = true.
Proof. unfold isNumberChar. by intros ->. Qed.

Lemma decimal_isNumberChar (n : Z) :
  Js.allChars isNumberChar (Js.decimal n) = true.
Proof.
  apply (allChars_impl Js.isDigit); [apply isDigit_isNumberChar|].
  apply decimal_allDigits.
Qed.

Lemma zeros_isNumberChar (n : Z) : Js.allChars isNumberChar (Num.zeros n) = true.
Proof. by apply allChars_repeatChar. Qed.

Lemma exponentPart_isNumberChar (e : Z) :
  Js.allChars isNumberChar (Num.exponentPart e) = true.
Proof.
  unfold Num.exponentPart. cbn [Js.allChars].
  rewrite allChars_app, decimal_isNumberChar. by destruct (e <? 0).
Qed.

Lemma toStringPos_isNumberChar (q : Q) :
  Js.allChars isNumberChar (Num.toStringPos q) = true.
Proof.
  unfold Num.toStringPos. destruct (Num.shortest q) as [[s n] k].
  pose proof (decimal_isNumberChar s) as Hd.
  repeat match goal with
         | |- context [if ?b then _ else _] => destruct b
         end;
    rewrite ?allChars_app, ?zeros_isNumberChar, ?exponentPart_isNumberChar,
      ?Hd, ?allChars_prefix, ?allChars_dropChars by done; done.
Qed.

Lemma toString_isNumberChar (x : Num.number) :
  Js.allChars isNumberChar (Num.toString x) = true.
Proof.
  destruct x as [s|s| |s m e]; unfold Num.toString; try done.
  - by destruct s.
  - rewrite allChars_app, toStringPos_isNumberChar. by destruct s.
Qed.

Lemma versionText_plain (pool : Pool) :
  Js.allChars notGt (versionText pool) = true.
Proof.
  unfold versionText. destruct (factory pool) as [[t [v|]]|]; try done.
  rewrite allChars_app. apply andb_true_intro. split; [done|].
  apply (allChars_impl isNumberChar); [apply isNumberChar_notGt|].
  apply toString_isNumberChar.
Qed.

(** X1: the display name of a record that is not skipped holds no markup,
    whatever its version and parameters are. *)
Theorem display_name_has_no_markup (chainId : string) (pool : Pool) :
  poolTypeInvalid pool = false ->
  containsHtmlOrMarkdown (PublicNameTag (poolToTag chainId pool)) = false.
Proof.
  intros Hvalid. unfold poolTypeInvalid in Hvalid.
  apply orb_false_elim in Hvalid as [Hm _].
  assert (containsHtmlOrMarkdown (baseName pool) = false) as Hbase.
  { unfold baseName. rewrite containsHtmlOrMarkdown_app_plain.
    - by rewrite camelCaseToSpaced_markup.
    - rewrite allChars_app, versionText_plain. done. }
  cbn [poolToTag PublicNameTag]. unfold truncateString.
  destruct (50 <? String.length (baseName pool))%nat; [|done].
  rewrite containsHtmlOrMarkdown_app_plain by done.
  by apply containsHtmlOrMarkdown_prefix.
Qed.

Lemma display_name_has_no_markup_witness :
  containsHtmlOrMarkdown
    (PublicNameTag (poolToTag "42161" markupParameterPool)) = false.
Proof.
  apply (display_name_has_no_markup "42161" markupParameterPool).
  vm_compute; reflexivity.
Defined.

(** X2: a record of kind LBP has an empty snippet, whatever its
    parameters. *)
Theorem lbp_snippet_is_empty (pool : Pool) :
  typeText pool = "LBP" -> buildParamsSnippet pool = "".
Proof. intros H. unfold buildParamsSnippet. by rewrite H. Qed.

Lemma lbp_snippet_is_empty_witness : buildParamsSnippet lbpPool = "".
Proof. apply (lbp_snippet_is_empty lbpPool). vm_compute; reflexivity. Defined.

(** ** The note, and the contract of the fetcher *)

(** Text without ["<"] and [">"] in front adds no markup. *)
Lemma containsHtmlOrMarkdown_plain_app (a b : string) :
  Js.allChars notLt a = true ->
  containsHtmlOrMarkdown (a +:+ b) = containsHtmlOrMarkdown b.
Proof.
  intros Ha. induction a as [|c a IH]; [done|].
  rewrite string_app_cons. simpl in *. apply andb_prop in Ha as [Hc Ha].
  unfold notLt in Hc. apply negb_true_iff in Hc. rewrite Hc. by apply IH.
Qed.

(** X3: the note of a record that is not skipped holds no markup when the
    snippet of its parameters holds no [">"]. *)
Theorem note_markup_needs_parameter (chainId : string) (pool : Pool) :
  poolTypeInvalid pool = false ->
  Js.allChars notGt (buildParamsSnippet pool) = true ->
  containsHtmlOrMarkdown (PublicNote (poolToTag chainId pool)) = false.
Proof.
  intros Hvalid Hplain. unfold poolTypeInvalid in Hvalid.
  apply orb_false_elim in Hvalid as [Hm _].
  cbn [poolToTag PublicNote].
  rewrite containsHtmlOrMarkdown_plain_app by done.
  rewrite containsHtmlOrMarkdown_app_plain.
  - by rewrite camelCaseToSpaced_markup.
  - rewrite allChars_app. apply andb_true_intro. split; [done|].
    destruct (truthy (buildParamsSnippet pool)
              && (0 <? String.length (Js.trim (buildParamsSnippet pool)))%nat);
      [|done].
    by rewrite !allChars_app, Hplain.
Qed.

Lemma note_markup_needs_parameter_witness :
  containsHtmlOrMarkdown (PublicNote (poolToTag "42161" lbpPool)) = false.
Proof.
  apply (note_markup_needs_parameter "42161" lbpPool); vm_compute; reflexivity.
Defined.

Lemma le_empty (s : string) : String.le "" s.
Proof. by destruct s. Qed.

Lemma beyondCursor_advances (prev cur : string) (pages : list (list Pool)) :
  String.le prev cur -> beyondCursor cur pages -> advances prev cur pages.
Proof.
  revert prev cur. induction pages as [|page rest IH]; intros prev cur Hle;
    simpl; [done|].
  intros [[Hcl Hlc] Hrest].
  assert (lastIdOf page <> cur) as Hne.
  { intros Heq. rewrite Heq in Hlc. by apply Hlc. }
  split; [|split; [done|split]].
  - intros Heq. rewrite Heq in Hlc. apply Hlc. apply le_empty.
  - intros Heq. rewrite Heq in Hlc, Hcl. apply Hlc.
    by rewrite (anti_symm String.le _ _ Hcl Hle).
  - by apply IH.
Qed.

(** X4: under the contract of the fetcher, where every full page ends
    beyond the cursor of its request, the pages of 1000 records and the
    short page that follows are all collected, with one request for each
    page. *)
Theorem contract_pages_collected (src : Source) (chainId apiKey : string)
    (full : list (list Pool)) (final : list Pool) :
  isSupportedChain chainId = true ->
  isBlank apiKey = false ->
  Forall (fun page => length page = pageSize) full ->
  (length final < pageSize)%nat ->
  serves src (endpoint apiKey) 0 (lastId initialState) (full ++ [final]) ->
  beyondCursor (lastId initialState) full ->
  returnTags (S (length full)) src chainId apiKey
  = Some {| outcome :=
              inr (poolToTag "42161"
                     <$> filter (fun p => poolTypeInvalid p = false)
                           (deduplicate (concat (full ++ [final]))));
            requests :=
              request (endpoint apiKey)
                <$> cursorsFrom (lastId initialState) (full ++ [final]) |}.
Proof.
  intros Hc Hb Hfull Hfinal Hserv Hbeyond.
  rewrite returnTags_accepted by done.
  replace (S (length full)) with (S (length full) + 0)%nat by lia.
  rewrite (whileLoop_pages src (endpoint apiKey) "42161" full final);
    try done; [|lia|].
  - simpl. by rewrite filterNew_deduplicate.
  - apply beyondCursor_advances; [apply le_empty | done].
Qed.

Lemma contract_pages_collected_witness :
  returnTags (S (length [fullPage "0x02"])) twoPageSource "42161" "key"
  = Some {| outcome :=
              inr (poolToTag "42161"
                     <$> filter (fun p => poolTypeInvalid p = false)
                           (deduplicate
                              (concat ([fullPage "0x02"]
                                       ++ [[samplePool "0x02" "Stable";
                                            samplePool "0x03" "GyroE";
                                            samplePool "0x04" ""]]))));
            requests :=
              request (endpoint "key")
                <$> cursorsFrom (lastId initialState)
                      ([fullPage "0x02"]
                       ++ [[samplePool "0x02" "Stable";
                            samplePool "0x03" "GyroE";
                            samplePool "0x04" ""]]) |}.
Proof.
  apply (contract_pages_collected twoPageSource "42161" "key" [fullPage "0x02"]
           [samplePool "0x02" "Stable"; samplePool "0x03" "GyroE";
            samplePool "0x04" ""]).
  - vm_compute; reflexivity.
  - vm_compute; reflexivity.
  - constructor; [vm_compute; reflexivity | constructor].
  - vm_compute; lia.
  - vm_compute; repeat split.
  - vm_compute. split; [split; [exact I | intros H; exact H] | exact I].
Defined.

(** ** The spaces of the kind *)

Lemma countBoundaries_step (c1 c2 : ascii) (rest : string) :
  countBoundaries (String c1 (String c2 rest))
  = ((if isBoundary c1 c2 then 1 else 0) + countBoundaries (String c2 rest))%nat.
Proof. reflexivity. Qed.

Lemma isUpper_not_first (c d : ascii) : Js.isUpper c = true -> isBoundary c d = false.
Proof.
  unfold isBoundary, Js.isUpper, Js.isLower, Js.isDigit.
  intros H. apply andb_prop in H as [H1 H2].
  apply Z.leb_le in H1. apply Z.leb_le in H2.
  destruct (Z.leb_spec 97 (Js.code c)); [lia|].
  destruct (Z.leb_spec 48 (Js.code c)); destruct (Z.leb_spec (Js.code c) 57);
    try done; lia.
Qed.

Lemma space_not_boundary (c : ascii) :
  isBoundary c " " = false /\ isBoundary " " c = false.
Proof. split; [unfold isBoundary; apply andb_false_r | done]. Qed.

Lemma isBoundary_not_space (c1 c2 : ascii) :
  isBoundary c1 c2 = true -> (c1 =? " ")%char = false /\ (c2 =? " ")%char = false.
Proof.
  intros H. split.
  - destruct (Ascii.eqb_spec c1 " "%char) as [->|]; [done|done].
  - destruct (Ascii.eqb_spec c2 " "%char) as [->|]; [|done].
    by rewrite (proj1 (space_not_boundary c1)) in H.
Qed.

(** The first character stays in front. *)
Lemma camelCaseToSpaced_head (c : ascii) (r : string) :
  exists r', camelCaseToSpaced (String c r) = String c r'
             /\ (forall d, countBoundaries (String d (String c r'))
                           = ((if isBoundary d c then 1 else 0)
                              + countBoundaries (String c r'))%nat).
Proof.
  destruct r as [|c2 rest]; [by exists ""|].
  rewrite camelCaseToSpaced_step. fold (isBoundary c c2).
  destruct (isBoundary c c2); by eexists.
Qed.

Lemma camelCaseToSpaced_spaces_aux (n : nat) :
  forall s, (String.length s <= n)%nat ->
    countBoundaries (camelCaseToSpaced s) = 0%nat
    /\ removeSpaces (camelCaseToSpaced s) = removeSpaces s
    /\ String.length (camelCaseToSpaced s)
       = (String.length s + countBoundaries s)%nat.
Proof.
  induction n as [|n IH]; intros s Hlen.
  - destruct s; [done | simpl in Hlen; lia].
  - destruct s as [|c1 [|c2 rest]]; [done | done |].
    simpl in Hlen. rewrite camelCaseToSpaced_step, countBoundaries_step.
    fold (isBoundary c1 c2). destruct (isBoundary c1 c2) eqn:Hm.
    + destruct (IH rest) as (IHb & IHr & IHl); [lia|].
      destruct (isBoundary_not_space _ _ Hm) as [Hs1 Hs2].
      assert (Js.isUpper c2 = true) as Hu by by apply andb_prop in Hm as [_ ?].
      split; [|split].
      * rewrite countBoundaries_step, (proj1 (space_not_boundary c1)).
        rewrite countBoundaries_step, (proj2 (space_not_boundary c2)).
        destruct (camelCaseToSpaced rest) as [|d r'] eqn:Hr; [done|].
        rewrite countBoundaries_step, (isUpper_not_first _ _ Hu). apply IHb.
      * cbn [removeSpaces]. rewrite Hs1, Hs2. cbn [Ascii.eqb Bool.eqb].
        change (" " =? " ")%char with true. cbn iota. by rewrite IHr.
      * cbn [String.length]. rewrite IHl.
        destruct rest as [|d r]; [simpl; lia|].
        rewrite countBoundaries_step, (isUpper_not_first _ _ Hu). lia.
    + destruct (IH (String c2 rest)) as (IHb & IHr & IHl); [simpl; lia|].
      destruct (camelCaseToSpaced_head c2 rest) as (r' & Hr & Hcount).
      split; [|split].
      * rewrite Hr in *. rewrite Hcount, Hm. apply IHb.
      * cbn [removeSpaces]. by rewrite IHr.
      * cbn [String.length] in *. rewrite IHl. lia.
Qed.

Lemma camelCaseToSpaced_fixed (s : string) :
  countBoundaries s = 0%nat -> camelCaseToSpaced s = s.
Proof.
  induction s as [|c1 s IH]; [done|].
  destruct s as [|c2 rest]; [done|].
  rewrite camelCaseToSpaced_step, countBoundaries_step. fold (isBoundary c1 c2).
  destruct (isBoundary c1 c2); [simpl; lia|].
  intros H. by rewrite IH.
Qed.

(** X5: the kind is spaced at every boundary and nowhere else.  The spaced
    text is one character longer for each lowercase letter or digit that an
    uppercase letter follows, holds no such pair any more, reads as the
    kind once the spaces are taken out, and spacing it again changes
    nothing. *)
Theorem camelCaseToSpaced_spaces (s : string) :
  String.length (camelCaseToSpaced s)
  = (String.length s + countBoundaries s)%nat
  /\ countBoundaries (camelCaseToSpaced s) = 0%nat
  /\ removeSpaces (camelCaseToSpaced s) = removeSpaces s
  /\ camelCaseToSpaced (camelCaseToSpaced s) = camelCaseToSpaced s.
Proof.
  destruct (camelCaseToSpaced_spaces_aux (String.length s) s) as (Hb & Hr & Hl);
    [done|].
  split; [done|]. split; [done|]. split; [done|].
  by apply camelCaseToSpaced_fixed.
Qed.

(** ** What the test of markup sees *)

Lemma hasMarkup_context (a s b : string) :
  hasMarkup s -> hasMarkup (a +:+ s +:+ b).
Proof.
  intros (pre & mid & post & -> & Hne & Hmid).
  exists (a +:+ pre), mid, (post +:+ b). split; [|done].
  rewrite !string_app_assoc, string_app_cons, string_app_assoc.
  by rewrite string_app_cons.
Qed.

(** X6: the test of markup sees tags only.  A text without ["<"], or
    without [">"], passes it, Markdown included; and a text that holds a
    tag is caught wherever it stands in a longer text. *)
Theorem markup_test_sees_tags_only (a s b : string) :
  (Js.allChars notLt s = true -> containsHtmlOrMarkdown s = false)
  /\ (Js.allChars notGt s = true -> containsHtmlOrMarkdown s = false)
  /\ (containsHtmlOrMarkdown s = true ->
      containsHtmlOrMarkdown (a +:+ s +:+ b) = true)
  /\ containsHtmlOrMarkdown "**bold** [link](javascript:alert(1))" = false.
Proof.
  split; [|split; [apply containsHtmlOrMarkdown_plain|split; [|done]]].
  - intros Hs. rewrite <- (string_app_empty_r s).
    by rewrite containsHtmlOrMarkdown_plain_app.
  - rewrite !containsHtmlOrMarkdown_spec. apply hasMarkup_context.
Qed.

(** ** The cap of a text *)

Lemma prefix_prefix_app (n : nat) (s t : string) :
  (n <= String.length s)%nat ->
  Js.prefix n (Js.prefix n s +:+ t) = Js.prefix n s.
Proof.
  revert s. induction n as [|n IH]; intros s Hlen.
  - destruct s; simpl; by destruct t.
  - destruct s as [|c s]; simpl in Hlen; [lia|].
    cbn [Js.prefix]. rewrite string_app_cons. cbn [Js.prefix].
    rewrite IH; [done | lia].
Qed.

(** X7: [truncateString] with any cap.  A cap of three or more is kept,
    and cutting a text that was cut changes nothing; a cap below three is
    not kept: a longer text becomes the three points alone.  In each case
    the characters before the last three places of the cap are those of the
    text. *)
Theorem truncateString_cap (text : string) (maxLength : nat) :
  ((3 <= maxLength)%nat ->
   (String.length (truncateString text maxLength) <= maxLength)%nat
   /\ truncateString (truncateString text maxLength) maxLength
      = truncateString text maxLength)
  /\ ((maxLength < 3)%nat -> (maxLength < String.length text)%nat ->
      truncateString text maxLength = "...")
  /\ Js.prefix (maxLength - 3) (truncateString text maxLength)
     = Js.prefix (maxLength - 3) text.
Proof.
  split; [|split].
  - intros Hcap. pose proof (truncateString_length text maxLength Hcap) as Hlen.
    split; [done|]. by apply truncateString_short.
  - intros Hcap Hlong. unfold truncateString.
    destruct (Nat.ltb_spec maxLength (String.length text)); [|lia].
    by replace (maxLength - 3)%nat with 0%nat by lia.
  - unfold truncateString.
    destruct (Nat.ltb_spec maxLength (String.length text)); [|done].
    apply prefix_prefix_app. lia.
Qed.

(** ** The characters of an abbreviated number *)

Lemma toFixed_isNumberChar (x : Num.number) (f : Z) :
  Js.allChars isNumberChar (Num.toFixed x f) = true.
Proof.
  unfold Num.toFixed.
  destruct (negb (Num.isFinite x)); [apply toString_isNumberChar|].
  destruct (Qle_bool _ _); [apply toString_isNumberChar|].
  set (m0 := Js.decimal _).
  assert (Js.allChars isNumberChar m0 = true) as Hm0
    by apply decimal_isNumberChar.
  set (m := if _ <=? f then _ else m0).
  assert (Js.allChars isNumberChar m = true) as Hm.
  { subst m. destruct (_ <=? f); [|done].
    by rewrite allChars_app, zeros_isNumberChar. }
  rewrite allChars_app. apply andb_true_intro. split.
  - by destruct (Num.ltb x (S754_zero false)).
  - destruct (f =? 0); [done|].
    rewrite !allChars_app, allChars_prefix, allChars_dropChars by done. done.
Qed.

Lemma replaceZeroFraction_allChars (p : ascii -> bool) (s : string) :
  Js.allChars p s = true -> Js.allChars p (replaceZeroFraction s) = true.
Proof.
  induction s as [|c s IH]; simpl; [done|].
  intros [Hc Hs]%andb_prop.
  destruct ((c =? ".")%char && negb (String.eqb s "") && Js.allChars isZero s);
    [done|].
  simpl. by rewrite Hc, IH.
Qed.

Lemma dropTrailingZeros_allChars (p : ascii -> bool) (s : string) :
  Js.allChars p s = true -> Js.allChars p (dropTrailingZeros s) = true.
Proof.
  induction s as [|c s IH]; [done|]. cbn [dropTrailingZeros].
  destruct (Js.allChars isZero (String c s)); [done|].
  simpl. intros [Hc Hs]%andb_prop. by rewrite Hc, IH.
Qed.

Lemma replaceTrailingZeros_allChars (p : ascii -> bool) (s : string) :
  Js.allChars p s = true -> Js.allChars p (replaceTrailingZeros s) = true.
Proof.
  induction s as [|c s IH]; simpl; [done|].
  intros [Hc Hs]%andb_prop.
  destruct ((c =? ".")%char && Js.allChars Js.isDigit s
            && negb (String.eqb (dropTrailingZeros s) s)); simpl; rewrite Hc.
  - by apply dropTrailingZeros_allChars.
  - by apply IH.
Qed.

Lemma isNumberChar_isAbbreviationChar (c : ascii) :
  isNumberChar c = true -> isAbbreviationChar c = true.
Proof. unfold isAbbreviationChar. by intros ->. Qed.

Lemma isAbbreviationChar_plain (c : ascii) :
  isAbbreviationChar c = true -> notGt c = true /\ notLt c = true.
Proof.
  intros H. unfold notGt, notLt. split.
  - destruct (Ascii.eqb_spec c ">"%char) as [->|]; [by vm_compute in H | done].
  - destruct (Ascii.eqb_spec c "<"%char) as [->|]; [by vm_compute in H | done].
Qed.

Lemma abbreviateNumberString_chars (input : string) :
  Num.isFinite (Num.ofString input) = true ->
  Js.allChars isAbbreviationChar (abbreviateNumberString input) = true.
Proof.
  intros Hfin. unfold abbreviateNumberString. rewrite Hfin. cbn [negb].
  assert (forall x, Js.allChars isAbbreviationChar (Num.toString x) = true)
    as Hstr.
  { intros x. apply (allChars_impl isNumberChar);
      [apply isNumberChar_isAbbreviationChar | apply toString_isNumberChar]. }
  destruct (Num.geb _ (Num.ofZ 1000000)); [by rewrite allChars_app, Hstr|].
  destruct (Num.geb _ (Num.ofZ 1000)); [by rewrite allChars_app, Hstr|].
  destruct (Num.ltb _ (Num.ofZ 1)); [apply Hstr|].
  apply replaceTrailingZeros_allChars, replaceZeroFraction_allChars.
  destruct (Num.gtb _ _); [|apply Hstr].
  apply (allChars_impl isNumberChar);
    [apply isNumberChar_isAbbreviationChar | apply toFixed_isNumberChar].
Qed.

(** X8: the abbreviation of a text that reads as a finite number is written
    with digits, a point, a sign, an exponent mark and the letters [M] and
    [k] only (and the letters of [NaN] and [Infinity]); it holds neither
    ["<"] nor [">"]. *)
Theorem abbreviation_is_plain (input : string) :
  Num.isFinite (Num.ofString input) = true ->
  Js.allChars isAbbreviationChar (abbreviateNumberString input) = true
  /\ Js.allChars notLt (abbreviateNumberString input) = true
  /\ Js.allChars notGt (abbreviateNumberString input) = true.
Proof.
  intros Hfin. pose proof (abbreviateNumberString_chars input Hfin) as H.
  split; [done|]. split.
  - apply (allChars_impl isAbbreviationChar); [|done].
    intros c Hc. by apply isAbbreviationChar_plain.
  - apply (allChars_impl isAbbreviationChar); [|done].
    intros c Hc. by apply isAbbreviationChar_plain.
Qed.

Lemma abbreviation_is_plain_witness :
  Js.allChars isAbbreviationChar (abbreviateNumberString "-1234.5e3") = true
  /\ Js.allChars notLt (abbreviateNumberString "-1234.5e3") = true
  /\ Js.allChars notGt (abbreviateNumberString "-1234.5e3") = true.
Proof. apply (abbreviation_is_plain "-1234.5e3"). vm_compute; reflexivity. Defined.

Lemma abbreviateNumberString_notGt (input : string) :
  Num.isFinite (Num.ofString input) = true ->
  Js.allChars notGt (abbreviateNumberString input) = true.
Proof.
  intros Hfin. apply (allChars_impl isAbbreviationChar).
  - intros c Hc. by apply isAbbreviationChar_plain.
  - by apply abbreviateNumberString_chars.
Qed.

Lemma buildParamsSnippet_notGt (pool : Pool) :
  Forall (fun text => Num.isFinite (Num.ofString text) = true)
    (parameterTexts pool) ->
  Js.allChars notGt (buildParamsSnippet pool) = true.
Proof.
  unfold parameterTexts. intros H.
  apply Forall_cons in H as [Hamp%abbreviateNumberString_notGt H].
  apply Forall_cons in H as [HsA%abbreviateNumberString_notGt H].
  apply Forall_cons in H as [HsB%abbreviateNumberString_notGt H].
  apply Forall_cons in H as [Ha%abbreviateNumberString_notGt H].
  apply Forall_cons in H as [Hb%abbreviateNumberString_notGt H].
  apply Forall_cons in H as [He%abbreviateNumberString_notGt H].
  apply Forall_cons in H as [Hm%abbreviateNumberString_notGt H].
  apply Forall_cons in H as [Hts%abbreviateNumberString_notGt _].
  unfold buildParamsSnippet.
  destruct (String.eqb (typeText pool) "Stable").
  { destruct (truthy _); [|reflexivity].
    rewrite allChars_app, Hamp. reflexivity. }
  destruct (String.eqb (typeText pool) "Weighted").
  { destruct (weightedParams pool); [|reflexivity].
    rewrite allChars_app. apply andb_true_intro. split; [reflexivity|].
    apply (allChars_impl isNumberChar); [apply isNumberChar_notGt|].
    apply toString_isNumberChar. }
  destruct (String.eqb (typeText pool) "Gyro2").
  { destruct (truthy _ && truthy _); [|reflexivity].
    rewrite !allChars_app, HsA, HsB. reflexivity. }
  destruct (String.eqb (typeText pool) "GyroE").
  { destruct (truthy _ && truthy _); [|reflexivity].
    rewrite !allChars_app, Ha, Hb. reflexivity. }
  destruct (String.eqb (typeText pool) "QuantAMMWeighted").
  { destruct (truthy _ && truthy _); [|reflexivity].
    rewrite !allChars_app, He, Hm. reflexivity. }
  destruct (String.eqb (typeText pool) "LBP"); [reflexivity|].
  destruct (String.eqb (typeText pool) "ReClamm"); [|reflexivity].
  destruct (truthy _); [|reflexivity].
  rewrite allChars_app, Hts. reflexivity.
Qed.

Lemma note_plain (chainId : string) (pool : Pool) :
  poolTypeInvalid pool = false ->
  Js.allChars notGt (buildParamsSnippet pool) = true ->
  containsHtmlOrMarkdown (PublicNote (poolToTag chainId pool)) = false.
Proof.
  intros Hvalid Hplain. unfold poolTypeInvalid in Hvalid.
  apply orb_false_elim in Hvalid as [Hm _].
  cbn [poolToTag PublicNote].
  rewrite containsHtmlOrMarkdown_plain_app by done.
  rewrite containsHtmlOrMarkdown_app_plain.
  - by rewrite camelCaseToSpaced_markup.
  - rewrite allChars_app. apply andb_true_intro. split; [done|].
    destruct (truthy (buildParamsSnippet pool)
              && (0 <? String.length (Js.trim (buildParamsSnippet pool)))%nat);
      [|done].
    by rewrite !allChars_app, Hplain.
Qed.

(** X9: when every parameter text of a record that is not skipped reads as
    a finite number, its note holds no markup. *)
Theorem numeric_parameters_give_plain_note (chainId : string) (pool : Pool) :
  poolTypeInvalid pool = false ->
  Forall (fun text => Num.isFinite (Num.ofString text) = true)
    (parameterTexts pool) ->
  containsHtmlOrMarkdown (PublicNote (poolToTag chainId pool)) = false.
Proof.
  intros Hvalid Hnum. apply note_plain; [done|].
  by apply buildParamsSnippet_notGt.
Qed.

Lemma numeric_parameters_give_plain_note_witness :
  containsHtmlOrMarkdown
    (PublicNote (poolToTag "42161" (numericStablePool "5000"))) = false.
Proof.
  apply (numeric_parameters_give_plain_note "42161" (numericStablePool "5000")).
  - vm_compute; reflexivity.
  - unfold parameterTexts. simpl. repeat constructor.
Defined.

(** ** Blank parameters, and the test on the snippet *)

Lemma ofString_blank (s : string) :
  isBlank s = true -> Num.ofString s = S754_zero false.
Proof.
  unfold isBlank. intros H. apply trim_empty in H.
  unfold Num.ofString. by rewrite H.
Qed.

(** X10: a parameter text of white space only reads as the number zero: its
    abbreviation is ["0"], and since such a text is not empty a snippet
    shows it as a zero. *)
Theorem blank_parameter_reads_as_zero (input : string) :
  isBlank input = true ->
  abbreviateNumberString input = "0"
  /\ (input <> "" -> buildParamsSnippet (numericStablePool input) = "amp=0").
Proof.
  intros Hb.
  assert (abbreviateNumberString input = "0") as H0.
  { unfold abbreviateNumberString. rewrite (ofString_blank _ Hb).
    by vm_compute. }
  split; [done|]. intros Hne. apply truthy_spec in Hne.
  unfold buildParamsSnippet.
  change (typeText (numericStablePool input)) with "Stable".
  change (String.eqb "Stable" "Stable") with true. cbn iota.
  change (field amp (stableParams (numericStablePool input))) with input.
  by rewrite Hne, H0.
Qed.

Lemma blank_parameter_reads_as_zero_witness :
  abbreviateNumberString " " = "0"
  /\ (" " <> "" -> buildParamsSnippet (numericStablePool " ") = "amp=0").
Proof. apply (blank_parameter_reads_as_zero " "). vm_compute; reflexivity. Defined.

Lemma trimCheck_isBlank (s : string) :
  truthy s && (0 <? String.length (Js.trim s))%nat = negb (isBlank s).
Proof.
  unfold isBlank. destruct (Js.allChars Js.isWhiteSpace s) eqn:Hb.
  - apply trim_empty in Hb. rewrite Hb. apply andb_false_r.
  - assert (Js.trim s <> "") as Ht.
    { intros Ht. apply trim_empty in Ht. congruence. }
    assert (s <> "") as Hk by (intros ->; done).
    apply truthy_spec in Hk. rewrite Hk. simpl.
    destruct (Js.trim s); done.
Qed.

(** A snippet is empty or starts with a letter. *)
Lemma buildParamsSnippet_isBlank (pool : Pool) :
  isBlank (buildParamsSnippet pool) = String.eqb (buildParamsSnippet pool) "".
Proof.
  unfold buildParamsSnippet.
  destruct (String.eqb (typeText pool) "Stable").
  { destruct (truthy _); reflexivity. }
  destruct (String.eqb (typeText pool) "Weighted").
  { destruct (weightedParams pool); reflexivity. }
  destruct (String.eqb (typeText pool) "Gyro2").
  { destruct (truthy _ && truthy _); reflexivity. }
  destruct (String.eqb (typeText pool) "GyroE").
  { destruct (truthy _ && truthy _); reflexivity. }
  destruct (String.eqb (typeText pool) "QuantAMMWeighted").
  { destruct (truthy _ && truthy _); reflexivity. }
  destruct (String.eqb (typeText pool) "LBP"); [reflexivity|].
  destruct (String.eqb (typeText pool) "ReClamm"); [|reflexivity].
  destruct (truthy _); reflexivity.
Qed.

(** X11: the note names the parameters whenever the snippet is not empty:
    the test on the trimmed snippet never hides one, since a snippet that
    is not empty starts with a letter. *)
Theorem note_shows_every_snippet (chainId : string) (pool : Pool) :
  PublicNote (poolToTag chainId pool)
  = "A Balancer v3 '" +:+ camelCaseToSpaced (typeText pool) +:+ "' pool."
    +:+ (if String.eqb (buildParamsSnippet pool) "" then ""
         else " Params: " +:+ buildParamsSnippet pool +:+ ".").
Proof.
  cbn [poolToTag PublicNote].
  rewrite trimCheck_isBlank, buildParamsSnippet_isBlank.
  by destruct (String.eqb (buildParamsSnippet pool) "").
Qed.

(** ** The fetcher *)

(** X12: the fetcher returns records only for a reply that is marked as
    successful, whose body is read, carries no [errors] field (not even an
    empty list) and holds [data.pools]; the records are those, unchanged,
    an empty list included. *)
Theorem fetchData_returns_iff (src : Source) (i : nat)
    (subgraphUrl lastId : string) (ps : list Pool) :
  fetchData src i subgraphUrl lastId = inr ps <->
  exists status result,
    src i (request subgraphUrl lastId) = Responded true status (inr result)
    /\ errors result = None
    /\ data result = Some {| pools := Some ps |}.
Proof.
  unfold fetchData. fold (request subgraphUrl lastId).
  destruct (src i (request subgraphUrl lastId)) as [e|[|] status [e|result]].
  - split; [by destruct (isAbortError e)|]. by intros (? & ? & ? & _).
  - split; [done|]. by intros (? & ? & ? & _).
  - destruct (errors result) as [messages|] eqn:He.
    + split; [done|]. intros (? & ? & [= <- <-] & ? & _). congruence.
    + destruct (data result) as [[[qs|]]|] eqn:Hd.
      * split.
        -- intros [= <-]. by exists status, result.
        -- intros (? & ? & [= <- <-] & _ & Hd'). congruence.
      * split; [done|]. intros (? & ? & [= <- <-] & _ & Hd'). congruence.
      * split; [done|]. intros (? & ? & [= <- <-] & _ & Hd'). congruence.
  - split; [done|]. by intros (? & ? & ? & _).
  - split; [done|]. by intros (? & ? & ? & _).
Qed.

(** ** The url *)

Lemma endpoint_shape (apiKey : string) :
  endpoint apiKey
  = gatewayPrefix +:+ encodeURIComponent apiKey +:+ deploymentSuffix.
Proof. reflexivity. Qed.

Lemma encodeURIComponent_cons_safe (c : ascii) (r : string) :
  Js.allChars isUriSafe (encodeURIComponent (String c r))
  = Js.allChars isUriSafe (encodeURIComponent r).
Proof.
  destruct c as [[] [] [] [] [] [] [] []]; reflexivity.
Qed.

Lemma encodeURIComponent_safe (s : string) :
  Js.allChars isUriSafe (encodeURIComponent s) = true.
Proof.
  induction s as [|c s IH]; [done|]. by rewrite encodeURIComponent_cons_safe.
Qed.

Lemma isUriSafe_notBracket (c : ascii) : isUriSafe c = true -> notBracket c = true.
Proof.
  unfold notBracket. destruct (Ascii.eqb_spec c "["%char) as [->|]; [|done].
  by vm_compute.
Qed.

Lemma isUriSafe_notDollar (c : ascii) : isUriSafe c = true -> notDollar c = true.
Proof.
  unfold notDollar. destruct (Ascii.eqb_spec c "$"%char) as [->|]; [|done].
  by vm_compute.
Qed.

(** X13: the key enters the url in encoded form only.  The url is the
    gateway address, the encoded key and the deployment path; the encoded
    key is written with letters, digits, [-_.!~*'()] and [%] alone, so it
    holds no ["/"], ["?"] or ["#"], and no ["$"] that [replace] would read
    as a pattern; the placeholder is gone: no ["["] is left in the url. *)
Theorem key_is_encoded_in_url (apiKey : string) :
  prepareUrl "42161" apiKey
  = inr (gatewayPrefix +:+ encodeURIComponent apiKey +:+ deploymentSuffix)
  /\ Js.allChars isUriSafe (encodeURIComponent apiKey) = true
  /\ Js.allChars notDollar (encodeURIComponent apiKey) = true
  /\ Js.allChars notBracket (endpoint apiKey) = true.
Proof.
  split; [by rewrite prepareUrl_arbitrum, endpoint_shape|].
  split; [apply encodeURIComponent_safe|]. split.
  - apply (allChars_impl isUriSafe notDollar _ isUriSafe_notDollar).
    apply encodeURIComponent_safe.
  - rewrite endpoint_shape, !allChars_app.
    rewrite (allChars_impl isUriSafe notBracket (encodeURIComponent apiKey)
               isUriSafe_notBracket) by apply encodeURIComponent_safe.
    reflexivity.
Qed.

Lemma unescape_encodeURIComponent_cons (c : ascii) (r : string) :
  unescape (encodeURIComponent (String c r))
  = String c (unescape (encodeURIComponent r)).
Proof.
  destruct c as [[] [] [] [] [] [] [] []]; reflexivity.
Qed.

Lemma unescape_encodeURIComponent (s : string) :
  unescape (encodeURIComponent s) = s.
Proof.
  induction s as [|c s IH]; [done|].
  by rewrite unescape_encodeURIComponent_cons, IH.
Qed.

Lemma string_app_inj_r (a b s : string) : a +:+ s = b +:+ s -> a = b.
Proof.
  revert b. induction a as [|c a IH]; intros [|d b] H.
  - done.
  - exfalso. apply (f_equal String.length) in H.
    rewrite string_app_empty_l, string_app_cons in H. simpl in H.
    rewrite string_length_app in H. lia.
  - exfalso. apply (f_equal String.length) in H.
    rewrite string_app_empty_l, string_app_cons in H. simpl in H.
    rewrite string_length_app in H. lia.
  - rewrite !string_app_cons in H. injection H as -> H. f_equal. by apply IH.
Qed.

Lemma string_app_inj_l (s a b : string) : s +:+ a = s +:+ b -> a = b.
Proof.
  induction s as [|c s IH]; [by rewrite !string_app_empty_l|].
  rewrite !string_app_cons. intros [= H]. by apply IH.
Qed.

(** X14: the encoding of the key loses nothing: reading the escapes back
    gives the key, so two keys have the same url only when they are the
    same key. *)
Theorem url_determines_key (apiKey apiKey' : string) :
  unescape (encodeURIComponent apiKey) = apiKey
  /\ (prepareUrl "42161" apiKey = prepareUrl "42161" apiKey' ->
      apiKey = apiKey').
Proof.
  split; [apply unescape_encodeURIComponent|].
  rewrite !prepareUrl_arbitrum, !endpoint_shape. intros [= H].
  apply string_app_inj_l, string_app_inj_r in H.
  by rewrite <- (unescape_encodeURIComponent apiKey), H,
    unescape_encodeURIComponent.
Qed.

(** X15: [prepareUrl] knows the chain by the text ["42161"] alone, and
    [returnTags] hands it the number written out.  For every chain that
    passes the validation, however it is written, the url is found; handed
    the text itself, which reads as a number and so names no other
    property, [prepareUrl] would refuse every other way of writing it. *)
Theorem normalised_chain_has_url (chainId apiKey : string) :
  isSupportedChain chainId = true ->
  prepareUrl (Num.toString (Num.ofString chainId)) apiKey
  = inr (endpoint apiKey)
  /\ (chainId <> "42161" ->
      prepareUrl chainId apiKey
      = inl (newError ("Unsupported Chain ID: " +:+ chainId +:+ "."))).
Proof.
  unfold isSupportedChain. intros Hc. apply eqb_arbitrum in Hc. split.
  - rewrite Hc. change (Num.toString arbitrum) with "42161".
    apply prepareUrl_arbitrum.
  - intros Hne. unfold prepareUrl, SUBGRAPH_URLS.
    by rewrite lookup_singleton_ne.
Qed.

Lemma normalised_chain_has_url_witness :
  prepareUrl (Num.toString (Num.ofString "0xA4B1")) "key"
  = inr (endpoint "key")
  /\ ("0xA4B1" <> "42161" ->
      prepareUrl "0xA4B1" "key"
      = inl (newError ("Unsupported Chain ID: " +:+ "0xA4B1" +:+ "."))).
Proof.
  apply (normalised_chain_has_url "0xA4B1" "key"). vm_compute; reflexivity.
Defined.

(** ** The filter of the identifiers *)

Lemma filterNew_cons_seen (seen : gset string) (p : Pool) (rest : list Pool) :
  id p ∈ seen -> filterNew seen (p :: rest) = filterNew seen rest.
Proof. intros H. simpl. by rewrite decide_True. Qed.

Lemma filterNew_cons_new (seen : gset string) (p : Pool) (rest : list Pool) :
  id p ∉ seen ->
  filterNew seen (p :: rest)
  = (p :: (filterNew ({[id p]} ∪ seen) rest).1,
     (filterNew ({[id p]} ∪ seen) rest).2).
Proof.
  intros H. simpl. rewrite decide_False by done.
  by destruct (filterNew ({[id p]} ∪ seen) rest).
Qed.

Lemma filterNew_sublist (seen : gset string) (batch : list Pool) :
  (filterNew seen batch).1 `sublist_of` batch.
Proof.
  revert seen. induction batch as [|p batch IH]; intros seen; [done|].
  destruct (decide (id p ∈ seen)) as [Hin|Hin].
  - rewrite filterNew_cons_seen by done. by apply sublist_cons.
  - rewrite filterNew_cons_new by done. by apply sublist_skip.
Qed.

Lemma filterNew_fresh (seen : gset string) (batch : list Pool) :
  NoDup (id <$> (filterNew seen batch).1)
  /\ forall x, x ∈ id <$> (filterNew seen batch).1 -> x ∉ seen.
Proof.
  revert seen. induction batch as [|p batch IH]; intros seen.
  - split; [constructor|]. intros x Hx. by apply elem_of_nil in Hx.
  - destruct (decide (id p ∈ seen)) as [Hin|Hin].
    + rewrite filterNew_cons_seen by done. apply IH.
    + rewrite filterNew_cons_new by done.
      destruct (IH ({[id p]} ∪ seen)) as [Hnd Hout]. cbn [fst fmap list_fmap].
      split.
      * constructor; [|done]. intros Hp. apply Hout in Hp.
        by apply Hp, elem_of_union_l, elem_of_singleton.
      * intros x [->|Hx]%elem_of_cons; [done|]. apply Hout in Hx.
        intros Hs. by apply Hx, elem_of_union_r.
Qed.

Lemma filterNew_seen (seen : gset string) (batch : list Pool) :
  (filterNew seen batch).2 = seen ∪ list_to_set (id <$> batch).
Proof.
  revert seen. induction batch as [|p batch IH]; intros seen.
  - simpl. by rewrite (right_id_L ∅ (∪)).
  - destruct (decide (id p ∈ seen)) as [Hin|Hin].
    + rewrite filterNew_cons_seen, IH by done. simpl.
      apply set_eq. intros x. rewrite !elem_of_union, elem_of_singleton.
      split; [tauto|]. intros [?|[->|?]]; auto.
    + rewrite filterNew_cons_new by done. cbn [snd]. rewrite IH. simpl.
      apply set_eq. intros x. rewrite !elem_of_union, elem_of_singleton.
      tauto.
Qed.

Lemma filterNew_all_seen (seen : gset string) (batch : list Pool) :
  Forall (fun p => id p ∈ seen) batch -> filterNew seen batch = ([], seen).
Proof.
  induction 1 as [|p batch Hp _ IH]; [done|].
  by rewrite filterNew_cons_seen.
Qed.

Lemma filterNew_complete (seen : gset string) (batch : list Pool) (x : string) :
  x ∈ id <$> batch -> x ∉ seen -> x ∈ id <$> (filterNew seen batch).1.
Proof.
  revert seen. induction batch as [|p batch IH]; intros seen Hx Hnew.
  - by apply elem_of_nil in Hx.
  - destruct (decide (id p ∈ seen)) as [Hin|Hin].
    + rewrite filterNew_cons_seen by done. apply IH; [|done].
      rewrite fmap_cons in Hx. apply elem_of_cons in Hx as [Hx|Hx]; [|done].
      by rewrite Hx in Hnew.
    + rewrite filterNew_cons_new by done. cbn [fst fmap list_fmap].
      destruct (decide (x = id p)) as [->|Hne]; [by left|]. right.
      apply IH; [|by intros [?%elem_of_singleton|?]%elem_of_union].
      rewrite fmap_cons in Hx. by apply elem_of_cons in Hx as [Hx|Hx].
Qed.

(** X16: what the filter of the identifiers does with a batch.  The records
    it lets through are records of the batch in their order, no two of them
    share an identifier, none carries an identifier seen before, and every
    identifier of the batch that was not seen before is let through; the
    identifiers remembered afterwards are those seen before and those of
    the batch, so the same batch again lets nothing through. *)
Theorem filterNew_contract (seen : gset string) (batch : list Pool) :
  (filterNew seen batch).1 `sublist_of` batch
  /\ NoDup (id <$> (filterNew seen batch).1)
  /\ (forall x, x ∈ id <$> (filterNew seen batch).1
                <-> x ∈ id <$> batch /\ x ∉ seen)
  /\ (filterNew seen batch).2 = seen ∪ list_to_set (id <$> batch)
  /\ (filterNew (filterNew seen batch).2 batch).1 = [].
Proof.
  destruct (filterNew_fresh seen batch) as [Hnd Hout].
  split; [apply filterNew_sublist|]. split; [done|]. split; [|split].
  - intros x. split.
    + intros Hx. split; [|by apply Hout].
      apply list_elem_of_fmap in Hx as (p & -> & Hp).
      apply list_elem_of_fmap_2.
      eapply elem_of_sublist; [done | apply filterNew_sublist].
    + intros [Hx Hnew]. by apply filterNew_complete.
  - apply filterNew_seen.
  - rewrite filterNew_all_seen; [done|].
    rewrite filterNew_seen. apply Forall_forall. intros p Hp.
    apply elem_of_union_r, elem_of_list_to_set. by apply list_elem_of_fmap_2.
Qed.

Lemma filterNew_without (ident : string) (batch : list Pool) :
  forall seen seen' : gset string,
    (forall x, x ∈ seen' <-> x = ident \/ x ∈ seen) ->
    (filterNew seen' batch).1
    = (filterNew seen (filter (fun p => id p <> ident) batch)).1.
Proof.
  induction batch as [|p batch IH]; intros seen seen' Hsets; [done|].
  rewrite filter_cons. destruct (decide (id p <> ident)) as [Hne|Heq].
  - destruct (decide (id p ∈ seen)) as [Hin|Hin].
    + rewrite !filterNew_cons_seen; [by apply IH | done | apply Hsets; auto].
    + rewrite !filterNew_cons_new; [| done | rewrite Hsets; tauto].
      cbn [fst]. f_equal. apply IH. intros x.
      rewrite !elem_of_union, !elem_of_singleton, Hsets. tauto.
  - assert (id p = ident) as Hid.
    { by destruct (decide (id p = ident)). }
    rewrite filterNew_cons_seen; [by apply IH | apply Hsets; auto].
Qed.

(** X17: the identifier of a record is remembered before its kind is
    looked at.  A record that is skipped for its kind still takes its
    identifier: the tags of a batch that starts with such a record are the
    tags of the batch without any record of that identifier. *)
Theorem invalid_record_takes_identifier (chainId : string)
    (seen : gset string) (bad : Pool) (rest : list Pool) :
  poolTypeInvalid bad = true ->
  transformPoolsToTags chainId (filterNew seen (bad :: rest)).1
  = transformPoolsToTags chainId
      (filterNew seen (filter (fun p => id p <> id bad) rest)).1.
Proof.
  intros Hbad. destruct (decide (id bad ∈ seen)) as [Hin|Hin].
  - rewrite filterNew_cons_seen by done.
    f_equal. apply filterNew_without. intros x. split; [auto|].
    by intros [->|?].
  - rewrite filterNew_cons_new by done. cbn [fst].
    unfold transformPoolsToTags. rewrite filter_cons.
    rewrite decide_False by (by rewrite Hbad).
    do 2 f_equal. apply filterNew_without. intros x.
    rewrite elem_of_union, elem_of_singleton. tauto.
Qed.

Lemma invalid_record_takes_identifier_witness :
  transformPoolsToTags "42161"
    (filterNew ∅ (samplePool "0x04" "" :: [samplePool "0x04" "Stable"])).1
  = transformPoolsToTags "42161"
      (filterNew ∅ (filter (fun p => id p <> id (samplePool "0x04" ""))
                      [samplePool "0x04" "Stable"])).1.
Proof.
  apply (invalid_record_takes_identifier "42161" ∅ (samplePool "0x04" "")
           [samplePool "0x04" "Stable"]).
  vm_compute; reflexivity.
Defined.

(** ** What a run that ends has done *)

Section Ends.

Variable src : Source.
Variables url chain : string.

Lemma tryBlock_ends (st st' : LoopState) :
  tryBlock src url chain st = (st', inr false) ->
  exists pools,
    fetchData src (length (sent st)) url (lastId st) = inr pools
    /\ length pools <> pageSize
    /\ st' = withPage url chain st pools.
Proof.
  destruct (fetchData src (length (sent st)) url (lastId st))
    as [e|pools] eqn:Hf.
  - by rewrite (tryBlock_thrown _ _ _ _ _ Hf).
  - destruct (decide (length pools = pageSize)) as [Hlen|Hlen].
    + destruct (full_page_has_last _ Hlen) as [p Hp].
      rewrite (tryBlock_full_page _ _ _ _ _ _ Hf Hlen Hp).
      by destruct (stalls st (id p)).
    + rewrite (tryBlock_last_page _ _ _ _ _ Hf Hlen). intros [= <-].
      by exists pools.
Qed.

Lemma tryBlock_goes_on (st st' : LoopState) :
  tryBlock src url chain st = (st', inr true) ->
  exists pools,
    fetchData src (length (sent st)) url (lastId st) = inr pools
    /\ length pools = pageSize
    /\ stalls st (lastIdOf pools) = false
    /\ st' = withCursor (lastIdOf pools) (withPage url chain st pools)
               (lastId st).
Proof.
  destruct (fetchData src (length (sent st)) url (lastId st))
    as [e|pools] eqn:Hf.
  - by rewrite (tryBlock_thrown _ _ _ _ _ Hf).
  - destruct (decide (length pools = pageSize)) as [Hlen|Hlen].
    + destruct (full_page_has_last _ Hlen) as [p Hp].
      rewrite (tryBlock_full_page _ _ _ _ _ _ Hf Hlen Hp).
      assert (lastIdOf pools = id p) as Hid by (unfold lastIdOf; by rewrite Hp).
      destruct (stalls st (id p)) eqn:Hs; [done|]. intros [= <-].
      exists pools. by rewrite Hid.
    + by rewrite (tryBlock_last_page _ _ _ _ _ Hf Hlen).
Qed.

Lemma whileLoop_returns (fuel : nat) :
  forall (st : LoopState) (tags : list ContractTag) (reqs : list Request),
    whileLoop fuel src url chain st
    = Some {| outcome := inr tags; requests := reqs |} ->
    exists full final,
      Forall (fun page => length page = pageSize) full
      /\ length final <> pageSize
      /\ serves src url (length (sent st)) (lastId st) (full ++ [final])
      /\ advances (prevLastId st) (lastId st) full
      /\ (length full < fuel)%nat.
Proof.
  induction fuel as [|fuel IH]; intros st tags reqs; [done|].
  cbn [whileLoop].
  destruct (tryBlock src url chain st) as [st' [e|[|]]] eqn:Ht; [done| |].
  - intros H. apply tryBlock_goes_on in Ht as (pools & Hf & Hlen & Hs & ->).
    apply IH in H as (full & final & Hfull & Hfinal & Hserv & Hadv & Hlt).
    cbn [withCursor withPage lastId prevLastId sent] in Hserv, Hadv.
    rewrite length_app in Hserv. cbn [length] in Hserv.
    replace (length (sent st) + 1)%nat with (S (length (sent st))) in Hserv
      by lia.
    assert (~ (lastIdOf pools = "" \/ lastIdOf pools = lastId st
               \/ lastIdOf pools = prevLastId st)) as Hn.
    { rewrite <- stalls_spec. by rewrite Hs. }
    exists (pools :: full), final.
    split; [by constructor|]. split; [done|]. split; [done|].
    split; [|simpl; lia]. cbn [advances]. tauto.
  - intros _. apply tryBlock_ends in Ht as (pools & Hf & Hlen & ->).
    exists [], pools. split; [constructor|]. split; [done|].
    split; [done|]. split; [done | simpl; lia].
Qed.

Lemma whileLoop_log (fuel : nat) :
  forall (st : LoopState) (run : Run),
    whileLoop fuel src url chain st = Some run ->
    exists rest,
      requests run = sent st ++ (request url <$> (lastId st :: rest))
      /\ guarded (prevLastId st) (lastId st) rest.
Proof.
  induction fuel as [|fuel IH]; intros st run; [done|].
  cbn [whileLoop]. pose proof (tryBlock_sent src url chain st) as Hsent.
  destruct (tryBlock src url chain st) as [st' [e|[|]]] eqn:Ht;
    cbn [fst] in Hsent.
  - intros [= <-]. by exists [].
  - intros H. apply IH in H as (rest & Hreq & Hg).
    apply tryBlock_continues in Ht as (Hprev & Hcur & Hold & Hne).
    exists (lastId st' :: rest). split.
    + by rewrite Hreq, Hsent, <- app_assoc.
    + rewrite Hprev in Hg. cbn [guarded]. tauto.
  - intros [= <-]. by exists [].
Qed.


End Ends.

(** X18: a run that returns tags has fetched pages of exactly 1000 records
    and then one page of another size, each requested with the identifier
    that ends the page before it, and no full page ended with an empty
    identifier, with the cursor of its request or with the cursor before
    that.  The tags are those of the valid records among the first
    occurrences of each identifier, in the order of the pages, and one
    request was sent for each page. *)
Theorem returned_tags_come_from_pages (src : Source) (chainId apiKey : string)
    (fuel : nat) (tags : list ContractTag) (reqs : list Request) :
  returnTags fuel src chainId apiKey
  = Some {| outcome := inr tags; requests := reqs |} ->
  exists full final,
    Forall (fun page => length page = pageSize) full
    /\ length final <> pageSize
    /\ serves src (endpoint apiKey) 0 (lastId initialState) (full ++ [final])
    /\ advances "" (lastId initialState) full
    /\ (length full < fuel)%nat
    /\ tags = poolToTag "42161"
                <$> filter (fun p => poolTypeInvalid p = false)
                      (deduplicate (concat (full ++ [final])))
    /\ reqs = request (endpoint apiKey)
                <$> cursorsFrom (lastId initialState) (full ++ [final]).
Proof.
  intros H.
  destruct (isSupportedChain chainId) eqn:Hc;
    [|by rewrite returnTags_unsupported in H].
  destruct (isBlank apiKey) eqn:Hb; [by rewrite returnTags_blank in H|].
  rewrite returnTags_accepted in H by done.
  destruct (whileLoop_returns _ _ _ _ _ _ _ H)
    as (full & final & Hfull & Hfinal & Hserv & Hadv & Hlt).
  exists full, final. repeat (split; [done|]).
  replace fuel with (S (length full) + (fuel - S (length full)))%nat in H
    by lia.
  rewrite (whileLoop_pages src (endpoint apiKey) "42161" full final) in H
    by done.
  injection H as <- <-. cbn [allTags seenPoolIds sent initialState app].
  by rewrite filterNew_deduplicate.
Qed.

Lemma returned_tags_come_from_pages_witness :
  exists full final,
    Forall (fun page => length page = pageSize) full
    /\ length final <> pageSize
    /\ serves shortStallingSource (endpoint "key") 0 (lastId initialState)
         (full ++ [final])
    /\ advances "" (lastId initialState) full
    /\ (length full < 1)%nat
    /\ [poolToTag "42161"
          (samplePool "0x0000000000000000000000000000000000000000" "Stable")]
       = poolToTag "42161"
           <$> filter (fun p => poolTypeInvalid p = false)
                 (deduplicate (concat (full ++ [final])))
    /\ [request (endpoint "key") (lastId initialState)]
       = request (endpoint "key")
           <$> cursorsFrom (lastId initialState) (full ++ [final]).
Proof.
  apply (returned_tags_come_from_pages shortStallingSource "42161" "key" 1).
  vm_compute; reflexivity.
Defined.

(** X19: the cursors of the requests of a run.  Once the arguments are
    accepted, every request goes to the url of the key; the first carries
    the lowest identifier, and no later one carries an empty cursor, the
    cursor of the request before it or that of the request before that.
    This holds of every run that ends, with tags or with an error. *)
Theorem request_log_is_guarded (src : Source) (chainId apiKey : string)
    (fuel : nat) (run : Run) :
  isSupportedChain chainId = true ->
  isBlank apiKey = false ->
  returnTags fuel src chainId apiKey = Some run ->
  exists rest,
    requests run
    = request (endpoint apiKey) <$> (lastId initialState :: rest)
    /\ guarded "" (lastId initialState) rest.
Proof.
  intros Hc Hb H. rewrite returnTags_accepted in H by done.
  by apply whileLoop_log in H.
Qed.

Lemma request_log_is_guarded_witness :
  exists rest,
    requests {| outcome := inl (catchBlock (newError "HTTP error: 503"));
                requests := [request (endpoint "key") (lastId initialState);
                             request (endpoint "key") "0x02"] |}
    = request (endpoint "key") <$> (lastId initialState :: rest)
    /\ guarded "" (lastId initialState) rest.
Proof.
  apply (request_log_is_guarded advancingSource "42161" "key" 2);
    vm_compute; reflexivity.
Defined.



Lemma serves_Forall (src : Source) (url : string) (P : Pool -> Prop)
    (pages : list (list Pool)) :
  (forall i c page, fetchData src i url c = inr page -> Forall P page) ->
  forall i c, serves src url i c pages -> Forall P (concat pages).
Proof.
  intros HP. induction pages as [|page pages IH]; intros i c; [constructor|].
  intros [Hf Hserv]. simpl. apply Forall_app. split; [by eapply HP|].
  by eapply IH.
Qed.

Lemma contractAddress_inj (chainId a b : string) :
  "eip155:" +:+ chainId +:+ ":" +:+ a = "eip155:" +:+ chainId +:+ ":" +:+ b ->
  a = b.
Proof. intros H. by do 3 apply string_app_inj_l in H. Qed.

(** X21: no address is tagged twice.  When the identifier of every record
    the subgraph sends is its address, as the source takes it to be, the
    tags a run returns carry pairwise different addresses. *)
Theorem returned_addresses_are_distinct (src : Source)
    (chainId apiKey : string) (fuel : nat) (tags : list ContractTag)
    (reqs : list Request) :
  (forall i c page,
      fetchData src i (endpoint apiKey) c = inr page ->
      Forall (fun p => address p = id p) page) ->
  returnTags fuel src chainId apiKey
  = Some {| outcome := inr tags; requests := reqs |} ->
  NoDup (ContractAddress <$> tags).
Proof.
  intros Hsrc H.
  destruct (isSupportedChain chainId) eqn:Hc;
    [|by rewrite returnTags_unsupported in H].
  destruct (isBlank apiKey) eqn:Hb; [by rewrite returnTags_blank in H|].
  rewrite returnTags_accepted in H by done.
  destruct (whileLoop_returns _ _ _ _ _ _ _ H)
    as (full & final & Hfull & Hfinal & Hserv & Hadv & Hlt).
  replace fuel with (S (length full) + (fuel - S (length full)))%nat in H
    by lia.
  rewrite (whileLoop_pages src (endpoint apiKey) "42161" full final) in H
    by done.
  injection H as <- _. cbn [allTags seenPoolIds initialState app].
  rewrite filterNew_deduplicate. unfold transformPoolsToTags.
  set (kept := filter (fun pool => poolTypeInvalid pool = false)
                 (deduplicate (concat (full ++ [final])))).
  assert (kept `sublist_of` concat (full ++ [final])) as Hsub.
  { etrans; [apply sublist_filter | apply deduplicate_sublist]. }
  assert (NoDup (id <$> kept)) as Hnd.
  { eapply sublist_NoDup; [apply deduplicate_NoDup|].
    apply fmap_sublist, sublist_filter. }
  pose proof (serves_Forall _ _ _ _ Hsrc _ _ Hserv) as Hall.
  rewrite Forall_forall in Hall.
  change (map (poolToTag "42161") kept) with (poolToTag "42161" <$> kept).
  rewrite <- list_fmap_compose.
  apply NoDup_fmap_1 in Hnd as Hk.
  apply NoDup_fmap_2_strong; [|done].
  intros p q Hp Hq Heq. cbn in Heq. apply contractAddress_inj in Heq.
  rewrite !Hall in Heq by (eapply elem_of_sublist; done).
  clear -Hnd Hp Hq Heq. induction kept as [|k kept IH]; [by apply elem_of_nil in Hp|].
  rewrite fmap_cons in Hnd. apply NoDup_cons in Hnd as [Hk Hnd].
  apply elem_of_cons in Hp as [->|Hp]; apply elem_of_cons in Hq as [->|Hq].
  - done.
  - exfalso. apply Hk. rewrite Heq. by apply list_elem_of_fmap_2.
  - exfalso. apply Hk. rewrite <- Heq. by apply list_elem_of_fmap_2.
  - by apply IH.
Qed.

Lemma returned_addresses_are_distinct_witness :
  NoDup (ContractAddress
           <$> [poolToTag "42161"
                  (samplePool "0x0000000000000000000000000000000000000000"
                     "Stable")]).
Proof.
  apply (returned_addresses_are_distinct shortStallingSource "42161" "key" 1
           _ [request (endpoint "key") (lastId initialState)]).
  - intros i c page [= <-]. by repeat constructor.
  - vm_compute; reflexivity.
Defined.

(** ** Runs that do not end *)

Lemma lastIdOf_fullPage (ident : string) : lastIdOf (fullPage ident) = ident.
Proof. unfold lastIdOf, fullPage. by rewrite last_snoc. Qed.

Lemma length_fullPage (ident : string) : length (fullPage ident) = pageSize.
Proof. unfold fullPage. by rewrite length_app, length_replicate. Qed.

Lemma nextInCycle_advances (c : string) :
  nextInCycle c <> "" /\ nextInCycle c <> c
  /\ nextInCycle (nextInCycle c) <> c.
Proof.
  unfold nextInCycle.
  destruct (String.eqb_spec c "0x0a") as [->|Ha]; [done|].
  destruct (String.eqb_spec c "0x0b") as [->|Hb]; [done|].
  split; [done|]. split; [congruence|]. cbn. congruence.
Qed.

Section Endless.

Variable src : Source.
Variables url chain : string.
Variable page : string -> list Pool.

Hypothesis answers : forall i c, fetchData src i url c = inr (page c).
Hypothesis full : forall c, length (page c) = pageSize.
Hypothesis moves :
  forall c, lastIdOf (page c) <> "" /\ lastIdOf (page c) <> c
            /\ lastIdOf (page (lastIdOf (page c))) <> c.

Lemma whileLoop_endless (fuel : nat) :
  forall st : LoopState,
    prevLastId st = "" \/ lastId st = lastIdOf (page (prevLastId st)) ->
    whileLoop fuel src url chain st = None.
Proof.
  induction fuel as [|fuel IH]; intros st Hinv; [done|].
  cbn [whileLoop].
  destruct (full_page_has_last _ (full (lastId st))) as [p Hp].
  assert (lastIdOf (page (lastId st)) = id p) as Hid
    by (unfold lastIdOf; by rewrite Hp).
  rewrite (tryBlock_full_page _ _ _ _ _ _ (answers _ _) (full _) Hp).
  destruct (moves (lastId st)) as (Hne & Hcur & Hback).
  assert (stalls st (id p) = false) as ->.
  { destruct (stalls st (id p)) eqn:Hs; [|done].
    apply stalls_spec in Hs. rewrite <- Hid in Hs.
    destruct Hs as [Hs|[Hs|Hs]]; [done|done|].
    destruct Hinv as [Hinv|Hinv]; [congruence|].
    destruct (moves (prevLastId st)) as (_ & _ & Hprev).
    rewrite <- Hinv in Hprev. done. }
  apply IH. right. by rewrite <- Hid.
Qed.

End Endless.

(** X22: nothing but the subgraph ends a run.  When every request is
    answered with a full page whose last identifier is not empty, is not
    the cursor of the request, and is not answered in turn with a page that
    leads back to that cursor, the run never returns, whatever the number
    of iterations; three identifiers in a circle are such answers, which
    the guard of the cursor does not see. *)
Theorem endless_pages_never_return (src : Source) (chainId apiKey : string)
    (page : string -> list Pool) (fuel : nat) :
  isSupportedChain chainId = true ->
  isBlank apiKey = false ->
  (forall i c, fetchData src i (endpoint apiKey) c = inr (page c)) ->
  (forall c, length (page c) = pageSize) ->
  (forall c, lastIdOf (page c) <> "" /\ lastIdOf (page c) <> c
             /\ lastIdOf (page (lastIdOf (page c))) <> c) ->
  returnTags fuel src chainId apiKey = None.
Proof.
  intros Hc Hb Hanswers Hfull Hmoves. rewrite returnTags_accepted by done.
  apply (whileLoop_endless src (endpoint apiKey) "42161" page); try done.
  by left.
Qed.

Lemma endless_pages_never_return_witness :
  returnTags 2000 cyclingSource "42161" "key" = None.
Proof.
  apply (endless_pages_never_return cyclingSource "42161" "key"
           (fun c => fullPage (nextInCycle c)) 2000).
  - vm_compute; reflexivity.
  - vm_compute; reflexivity.
  - reflexivity.
  - intros c. apply length_fullPage.
  - intros c. rewrite !lastIdOf_fullPage. apply nextInCycle_advances.
Defined.
